(** * ip_pairs_finder: pairs of reachable IPv4 addresses sharing a property

    A shallow embedding of [ip_pairs_finder.py].  Python strings are modelled
    as [string] holding their UTF-8 bytes (every separator and digit the
    program inspects is ASCII, and UTF-8 encoding is injective, so equality
    of strings is preserved).  Python integers are [Z].  The two sources of
    non-determinism, [random.randint] and the ping behind [is_available],
    are modelled by tapes held in an explicit world state. *)

From Stdlib Require Import ZArith List String Ascii Bool Lia.
From Stdlib Require Decimal DecimalPos DecimalZ.
From Stdlib Require Import DecimalString.
Import ListNotations.

Local Open Scope string_scope.
Local Open Scope list_scope.
Local Open Scope Z_scope.

(** ** Exceptions and results of pure library calls *)

Inductive exn : Type :=
| ValueError
| OSError
| OverflowError.

Inductive result (A : Type) : Type :=
| Ok (a : A)
| Raise (e : exn).

Arguments Ok {A} a.
Arguments Raise {A} e.

Definition result_bind {A B} (r : result A) (k : A -> result B) : result B :=
  match r with
  | Ok a => k a
  | Raise e => Raise e
  end.

(** ** Python string primitives used by the program *)

Module PyStr.

(** [s.split(sep)] for a one-character separator: every occurrence splits,
    empty fields are kept, and the empty string gives one empty field. *)
Fixpoint split (sep : ascii) (s : string) : list string :=
  match s with
  | EmptyString => [EmptyString]
  | String c r =>
      if Ascii.eqb c sep then EmptyString :: split sep r
      else match split sep r with
           | h :: t => String c h :: t
           | [] => [String c EmptyString]
           end
  end.

Definition code (c : ascii) : Z := Z.of_N (N_of_ascii c).

Definition is_digit (c : ascii) : bool :=
  (48 <=? code c) && (code c <=? 57).

Definition digit_val (c : ascii) : Z := code c - 48.

(** ASCII white space stripped by [int()]: TAB..CR, FS..US and SPACE. *)
Definition is_space (c : ascii) : bool :=
  ((9 <=? code c) && (code c <=? 13))
  || ((28 <=? code c) && (code c <=? 32)).

Fixpoint lstrip (s : string) : string :=
  match s with
  | EmptyString => EmptyString
  | String c r => if is_space c then lstrip r else s
  end.

Fixpoint rstrip (s : string) : string :=
  match s with
  | EmptyString => EmptyString
  | String c r =>
      match rstrip r with
      | EmptyString => if is_space c then EmptyString else String c EmptyString
      | r' => String c r'
      end
  end.

Definition strip (s : string) : string := rstrip (lstrip s).

(** The digit part of a base-10 literal accepted by [int()]: decimal
    digits, with single underscores allowed between two digits.
    [prev] tells whether the previous character was a digit. *)
Fixpoint digits_acc (acc : Z) (prev : bool) (s : string) : option Z :=
  match s with
  | EmptyString => if prev then Some acc else None
  | String c r =>
      if is_digit c then digits_acc (10 * acc + digit_val c) true r
      else if Ascii.eqb c "_" then
             if prev then digits_acc acc false r else None
           else None
  end.

(** [int(s)] on a string, base 10: surrounding white space is stripped, an
    optional sign is read, then the digits.  Anything else is a
    [ValueError].  (Non-ASCII digits and spaces, and the interpreter's
    configurable cap on the number of digits, are outside this model.) *)
Definition int (s : string) : result Z :=
  let t := strip s in
  let body sign r :=
    match digits_acc 0 false r with
    | Some v => Ok (sign * v)
    | None => Raise ValueError
    end in
  match t with
  | EmptyString => Raise ValueError
  | String c r =>
      if Ascii.eqb c "+" then body 1 r
      else if Ascii.eqb c "-" then body (-1) r
      else body 1 t
  end.

(** [str(n)], also what an f-string field [{n}] produces for an integer. *)
Definition str (n : Z) : string := NilZero.string_of_int (Z.to_int n).

(** [s.count(c)] for a one-character needle. *)
Fixpoint count (c : ascii) (s : string) : Z :=
  match s with
  | EmptyString => 0
  | String x r => (if Ascii.eqb x c then 1 else 0) + count c r
  end.

Fixpoint bits_of_positive (p : positive) : string :=
  match p with
  | xH => "1"
  | xO q => (bits_of_positive q ++ "0")%string
  | xI q => (bits_of_positive q ++ "1")%string
  end.

(** [bin(n)]. *)
Definition bin (n : Z) : string :=
  match n with
  | Z0 => "0b0"
  | Zpos p => ("0b" ++ bits_of_positive p)%string
  | Zneg p => ("-0b" ++ bits_of_positive p)%string
  end.

(** [sum(int(x) for x in parts)]: left to right from 0, the first
    exception raised by [int] propagates. *)
Fixpoint sum_ints (acc : Z) (parts : list string) : result Z :=
  match parts with
  | [] => Ok acc
  | p :: rest =>
      match int p with
      | Ok v => sum_ints (acc + v) rest
      | Raise e => Raise e
      end
  end.

End PyStr.

(** ** The [socket] and [int] byte conversions used by [CountOnesExtractor]

    Bytes are integers in [0, 255]; a packed address is a list of four. *)

Module Socket.

Definition hex_val (c : ascii) : option Z :=
  let n := PyStr.code c in
  if (48 <=? n) && (n <=? 57) then Some (n - 48)
  else if (97 <=? n) && (n <=? 102) then Some (n - 87)
  else if (65 <=? n) && (n <=? 70) then Some (n - 55)
  else None.

Definition digit_in_base (base : Z) (c : ascii) : option Z :=
  match hex_val c with
  | Some d => if d <? base then Some d else None
  | None => None
  end.

(** Longest prefix of digits of the base, as [strtoul] reads it. *)
Fixpoint scan_digits (base acc : Z) (s : string) : Z * string :=
  match s with
  | EmptyString => (acc, EmptyString)
  | String c r =>
      match digit_in_base base c with
      | Some d => scan_digits base (acc * base + d) r
      | None => (acc, s)
      end
  end.

(** [strtoul(s, &end, 0)] on a string that starts with a digit: a [0x]
    prefix followed by a hexadecimal digit selects base 16, another
    leading [0] base 8, anything else base 10. *)
Definition scan_number (s : string) : Z * string :=
  match s with
  | EmptyString => (0, EmptyString)
  | String z t =>
      if Ascii.eqb z "0" then
        match t with
        | String x (String h r) =>
            if (Ascii.eqb x "x" || Ascii.eqb x "X")
               && (match hex_val h with Some _ => true | None => false end)
            then scan_digits 16 0 (String h r)
            else scan_digits 8 0 s
        | _ => scan_digits 8 0 s
        end
      else scan_digits 10 0 s
  end.

(** The parts loop of the C library's [inet_aton]: numbers separated by
    dots; at most three may be followed by a dot and each of those must
    fit a byte.  Returns the bytes stored, the last number and the text
    left after it. *)
Fixpoint aton_parts (slots : nat) (stored : list Z) (s : string)
  : option (list Z * Z * string) :=
  match s with
  | EmptyString => None
  | String c _ =>
      if PyStr.is_digit c then
        let '(val, rest) := scan_number s in
        if 4294967295 <? val then None
        else match rest with
             | EmptyString => Some (stored, val, rest)
             | String x rest' =>
                 if Ascii.eqb x "." then
                   match slots with
                   | O => None
                   | S k =>
                       if 255 <? val then None
                       else aton_parts k (stored ++ [val]) rest'
                   end
                 else Some (stored, val, rest)
             end
      else None
  end.

Definition c_isspace (c : ascii) : bool :=
  let n := PyStr.code c in ((9 <=? n) && (n <=? 13)) || (n =? 32).

(** [n.to_bytes(width, byteorder='big')] for a width given as [nat]. *)
Fixpoint be_bytes (width : nat) (n : Z) : list Z :=
  match width with
  | O => []
  | S k => (n / 256 ^ Z.of_nat k) mod 256 :: be_bytes k n
  end.

Definition to_bytes (n : Z) (width : nat) : result (list Z) :=
  if (n <? 0) || (256 ^ Z.of_nat width <=? n) then Raise OverflowError
  else Ok (be_bytes width n).

(** [int.from_bytes(b, byteorder='big')]. *)
Definition from_bytes (b : list Z) : Z :=
  fold_left (fun acc x => acc * 256 + x) b 0.

(** [socket.inet_aton]: the C library's parser.  After the last number
    the text must end or continue with white space; the last number fills
    all the bytes that are left.  A rejected string raises [OSError]. *)
Definition inet_aton (s : string) : result (list Z) :=
  match aton_parts 3 [] s with
  | None => Raise OSError
  | Some (stored, val, rest) =>
      let tail_ok :=
        match rest with
        | EmptyString => true
        | String c _ => c_isspace c
        end in
      let free := (4 - List.length stored)%nat in
      if tail_ok && (val <? 256 ^ Z.of_nat free)
      then Ok (stored ++ be_bytes free val)
      else Raise OSError
  end.

(** The f-string [f"{a}.{b}.{c}.{d}"]. *)
Definition dotted (a b c d : Z) : string :=
  (PyStr.str a ++ "." ++ PyStr.str b ++ "." ++ PyStr.str c ++ "."
     ++ PyStr.str d)%string.

(** [socket.inet_ntoa]: four bytes to dotted decimal text. *)
Definition inet_ntoa (packed : list Z) : result string :=
  match packed with
  | [a; b; c; d] => Ok (dotted a b c d)
  | _ => Raise OSError
  end.

End Socket.

(** ** The world: random numbers, the network and a call trace *)

Inductive event : Type :=
| EvProbe (ip : string) (up : bool)
| EvGenCall (prop : Z)
| EvGenRet (candidate : string).

(** [rand_tape] is the sequence of raw numbers the generator will deliver
    and [ping_tape k ip] the answer the network gives to the [k]-th probe
    when it is sent to [ip].  [trace] is ghost state: it records the probes
    and the calls of [generate_candidate] in the order they happen. *)
Record World : Type := mkWorld {
  rand_tape : nat -> Z;
  rand_pos : nat;
  ping_tape : nat -> string -> bool;
  ping_pos : nat;
  trace : list event
}.

(** A computation either finishes with a result or an exception, or (for
    the unbounded [while True] loops, which are run with fuel) has not
    finished when the fuel is spent: [None]. *)
Definition M (A : Type) : Type := World -> option (result A) * World.

Definition ret {A} (a : A) : M A := fun w => (Some (Ok a), w).

Definition raise {A} (e : exn) : M A := fun w => (Some (Raise e), w).

Definition spin {A} : M A := fun w => (None, w).

Definition bind {A B} (m : M A) (k : A -> M B) : M B :=
  fun w =>
    match m w with
    | (Some (Ok a), w') => k a w'
    | (Some (Raise e), w') => (Some (Raise e), w')
    | (None, w') => (None, w')
    end.

Definition lift {A} (r : result A) : M A := fun w => (Some r, w).

Notation "x <- m ;; k" := (bind m (fun x => k))
  (at level 61, m at next level, right associativity).

Definition log_event (e : event) : M unit :=
  fun w => (Some (Ok tt),
            mkWorld (rand_tape w) (rand_pos w) (ping_tape w) (ping_pos w)
                    (trace w ++ [e])).

(** [random.randint(lo, hi)]: the next raw number, reduced into [lo..hi]. *)
Definition randint (lo hi : Z) : M Z :=
  fun w =>
    if hi <? lo then (Some (Raise ValueError), w)
    else (Some (Ok (lo + rand_tape w (rand_pos w) mod (hi - lo + 1))),
          mkWorld (rand_tape w) (S (rand_pos w)) (ping_tape w) (ping_pos w)
                  (trace w)).

(** [IIPAvailabilityChecker.is_available]: one probe, folded to a boolean
    (the implementation catches every exception of the ping). *)
Definition is_available (ip : string) : M bool :=
  fun w =>
    let up := ping_tape w (ping_pos w) ip in
    (Some (Ok up),
     mkWorld (rand_tape w) (rand_pos w) (ping_tape w) (S (ping_pos w))
             (trace w ++ [EvProbe ip up])).

(** ** Property extractors *)

Record IIPPropertyExtractor : Type := {
  extract_property : string -> result Z;
  generate_candidate : nat -> Z -> M string
}.

Module SumOctetsExtractor.

Definition extract_property (ip : string) : result Z :=
  PyStr.sum_ints 0 (PyStr.split "." ip).

(** The [while True] loop, with [fuel] bounding the number of rounds. *)
Fixpoint generate_candidate (fuel : nat) (prop_value : Z) : M string :=
  match fuel with
  | O => spin
  | S fuel' =>
      a <- randint 0 255 ;;
      b <- randint 0 255 ;;
      c <- randint 0 255 ;;
      let d := prop_value - (a + b + c) in
      if (0 <=? d) && (d <=? 255) then ret (Socket.dotted a b c d)
      else generate_candidate fuel' prop_value
  end.

Definition extractor : IIPPropertyExtractor :=
  Build_IIPPropertyExtractor extract_property generate_candidate.

End SumOctetsExtractor.

Module CountOnesExtractor.

Definition extract_property (ip : string) : result Z :=
  result_bind (Socket.inet_aton ip) (fun packed =>
    let ip_int := Socket.from_bytes packed in
    Ok (PyStr.count "1" (PyStr.bin ip_int))).

Fixpoint generate_candidate (fuel : nat) (prop_value : Z) : M string :=
  match fuel with
  | O => spin
  | S fuel' =>
      ip_int <- randint 0 (2 ^ 32 - 1) ;;
      if PyStr.count "1" (PyStr.bin ip_int) =? prop_value then
        packed <- lift (Socket.to_bytes ip_int 4) ;;
        lift (Socket.inet_ntoa packed)
      else generate_candidate fuel' prop_value
  end.

Definition extractor : IIPPropertyExtractor :=
  Build_IIPPropertyExtractor extract_property generate_candidate.

End CountOnesExtractor.

(** ** The pair finder *)

(** A result row: the 5-tuple appended by [find_pairs]. *)
Record PairRow : Type := mkRow {
  address1 : string;
  status1 : string;
  address2 : string;
  status2 : string;
  property : string
}.

Definition available_mark : string := "Доступен".

Definition property_label (prop : Z) : string :=
  ("Свойство=" ++ PyStr.str prop)%string.

Module IPPairFinder.

(** The call [prop_extractor.generate_candidate(prop)], with its entry and
    its return recorded in the ghost trace. *)
Definition call_generate (ext : IIPPropertyExtractor) (fuel : nat)
           (prop : Z) : M string :=
  _ <- log_event (EvGenCall prop) ;;
  candidate <- generate_candidate ext fuel prop ;;
  _ <- log_event (EvGenRet candidate) ;;
  ret candidate.

(** [for _ in range(self.attempts)]: [n] rounds.  The logging calls and
    the [found] flag, which only selects a log message, are left out. *)
Fixpoint attempts_loop (ext : IIPPropertyExtractor) (fuel : nat)
         (ip : string) (prop : Z) (n : nat) (pairs : list PairRow)
  : M (list PairRow) :=
  match n with
  | O => ret pairs
  | S n' =>
      candidate <- call_generate ext fuel prop ;;
      if String.eqb candidate ip then
        attempts_loop ext fuel ip prop n' pairs
      else
        up <- is_available candidate ;;
        if up then
          attempts_loop ext fuel ip prop n'
            (pairs ++ [mkRow ip available_mark candidate available_mark
                             (property_label prop)])
        else attempts_loop ext fuel ip prop n' pairs
  end.

(** The body of [for ip in ips]: what is done for one seed. *)
Definition process_seed (ext : IIPPropertyExtractor) (attempts : Z)
           (fuel : nat) (ip : string) (pairs : list PairRow)
  : M (list PairRow) :=
  up <- is_available ip ;;
  if up then
    prop <- lift (extract_property ext ip) ;;
    attempts_loop ext fuel ip prop (Z.to_nat attempts) pairs
  else ret pairs.

(** [for ip in ips]. *)
Fixpoint seeds_loop (ext : IIPPropertyExtractor) (attempts : Z)
         (fuel : nat) (ips : list string) (pairs : list PairRow)
  : M (list PairRow) :=
  match ips with
  | [] => ret pairs
  | ip :: rest =>
      pairs' <- process_seed ext attempts fuel ip pairs ;;
      seeds_loop ext attempts fuel rest pairs'
  end.

(** [find_pairs(ips, prop_extractor)] of a finder built with [attempts];
    [fuel] bounds each run of a candidate generator's loop. *)
Definition find_pairs (attempts : Z) (fuel : nat) (ips : list string)
           (ext : IIPPropertyExtractor) : M (list PairRow) :=
  seeds_loop ext attempts fuel ips [].

End IPPairFinder.

(** ** The application *)

Module IPApp.

Definition header : list string :=
  ["IPv4-адрес 1"; "Критерий 1"; "IPv4-адрес 2"; "Критерий 2"; "Свойство"].

(** [run]: the result is the pair of arguments of the call
    [csv_writer.write_csv(header, pairs)].  The address list comes from
    the generator (name resolution), here an argument. *)
Definition run (attempts : Z) (fuel : nat) (ips : list string)
           (ext : IIPPropertyExtractor) : M (list string * list PairRow) :=
  pairs <- IPPairFinder.find_pairs attempts fuel ips ext ;;
  ret (header, pairs).

End IPApp.

(** ** Reference notions the program is compared with *)

Module Spec.

Fixpoint all_chars (p : ascii -> bool) (s : string) : bool :=
  match s with
  | EmptyString => true
  | String c r => p c && all_chars p r
  end.

(** Horner evaluation of a string of decimal digits. *)
Fixpoint horner (acc : Z) (s : string) : Z :=
  match s with
  | EmptyString => acc
  | String c r => horner (10 * acc + (PyStr.code c - 48)) r
  end.

Definition decimal_value (s : string) : Z := horner 0 s.

(** A decimal integer: one or more decimal digits. *)
Definition is_decimal (s : string) : bool :=
  negb (String.eqb s EmptyString) && all_chars PyStr.is_digit s.

(** The text of an octet in canonical dotted-quad form: decimal, no
    leading zero unless it is the single digit 0, value at most 255. *)
Definition canonical_octet (s : string) : option Z :=
  match s with
  | EmptyString => None
  | String c r =>
      if all_chars PyStr.is_digit s
         && (negb (Ascii.eqb c "0") || String.eqb r EmptyString)
         && (decimal_value s <=? 255)
      then Some (decimal_value s)
      else None
  end.

(** [s] is the dotted-quad text of the address with octets [a b c d]. *)
Definition is_dotted_quad (s : string) (a b c d : Z) : Prop :=
  exists sa sb sc sd : string,
    s = (sa ++ "." ++ sb ++ "." ++ sc ++ "." ++ sd)%string
    /\ canonical_octet sa = Some a /\ canonical_octet sb = Some b
    /\ canonical_octet sc = Some c /\ canonical_octet sd = Some d.

(** The 32-bit big-endian integer of an address. *)
Definition address_int (a b c d : Z) : Z :=
  a * 2 ^ 24 + b * 2 ^ 16 + c * 2 ^ 8 + d.

(** Number of bits set among the [width] low bits of [n]. *)
Fixpoint popcount (width : nat) (n : Z) : Z :=
  match width with
  | O => 0
  | S k => popcount k n + (if Z.testbit n (Z.of_nat k) then 1 else 0)
  end.

Definition no_dot (s : string) : bool :=
  all_chars (fun c => negb (Ascii.eqb c ".")) s.

(** The text that may follow a number inside a dotted quad. *)
Definition field_end (rest : string) : Prop :=
  rest = EmptyString \/ exists r, rest = String "." r.



End Spec.

(** The two strategies the application is run with. *)
Inductive strategy : Type :=
| OctetSum
| BitPopcount.

Definition extractor_of (s : strategy) : IIPPropertyExtractor :=
  match s with
  | OctetSum => SumOctetsExtractor.extractor
  | BitPopcount => CountOnesExtractor.extractor
  end.

(** Valid targets of a strategy. *)
Definition valid_target (s : strategy) (t : Z) : Prop :=
  match s with
  | OctetSum => 0 <= t <= 1020
  | BitPopcount => 0 <= t <= 32
  end.

(** ** Reading the random tape ahead *)

(** The number [randint lo hi] returns [k] draws from now. *)
Definition drawn (w : World) (k : nat) (lo hi : Z) : Z :=
  lo + rand_tape w (k + rand_pos w) mod (hi - lo + 1).

(** The world after [n] draws. *)
Definition advance (w : World) (n : nat) : World :=
  mkWorld (rand_tape w) (n + rand_pos w) (ping_tape w) (ping_pos w) (trace w).

(** Whether the [round]-th round of a generator's loop, counted from the
    current position of the tape, draws numbers that pass its test. *)
Definition sum_round_accepts (t : Z) (w : World) (round : nat) : bool :=
  let a := drawn w (3 * round) 0 255 in
  let b := drawn w (3 * round + 1) 0 255 in
  let c := drawn w (3 * round + 2) 0 255 in
  let d := t - (a + b + c) in
  (0 <=? d) && (d <=? 255).

Definition count_round_accepts (t : Z) (w : World) (round : nat) : bool :=
  PyStr.count "1" (PyStr.bin (drawn w round 0 (2 ^ 32 - 1))) =? t.

Definition round_accepts (s : strategy) : Z -> World -> nat -> bool :=
  match s with
  | OctetSum => sum_round_accepts
  | BitPopcount => count_round_accepts
  end.

(** What a computation may change: the position on the random tape only. *)
Definition same_net (w w' : World) : Prop :=
  rand_tape w' = rand_tape w /\ ping_tape w' = ping_tape w
  /\ ping_pos w' = ping_pos w /\ trace w' = trace w.

(** The world after an event has been recorded, and after a probe. *)
Definition recorded (w : World) (e : event) : World :=
  mkWorld (rand_tape w) (rand_pos w) (ping_tape w) (ping_pos w)
          (trace w ++ [e]).

Definition probe_answer (w : World) (ip : string) : bool :=
  ping_tape w (ping_pos w) ip.

Definition probed_world (w : World) (ip : string) : World :=
  mkWorld (rand_tape w) (rand_pos w) (ping_tape w) (S (ping_pos w))
          (trace w ++ [EvProbe ip (probe_answer w ip)]).

(** ** Reading a trace *)

(** Number of calls of [generate_candidate]. *)
Fixpoint gen_calls (evs : list event) : nat :=
  match evs with
  | [] => 0
  | EvGenCall _ :: rest => S (gen_calls rest)
  | _ :: rest => gen_calls rest
  end.

(** The candidates the calls returned, in order. *)
Fixpoint returned (evs : list event) : list string :=
  match evs with
  | [] => []
  | EvGenRet c :: rest => c :: returned rest
  | _ :: rest => returned rest
  end.

(** The addresses probed, each with the answer, in order. *)
Fixpoint probes (evs : list event) : list (string * bool) :=
  match evs with
  | [] => []
  | EvProbe ip up :: rest => (ip, up) :: probes rest
  | _ :: rest => probes rest
  end.

(** The addresses that answered. *)
Definition answered (evs : list event) : list string :=
  map fst (filter snd (probes evs)).

Definition differs (ip : string) (c : string) : bool :=
  negb (String.eqb c ip).

Definition make_row (ip : string) (prop : Z) (candidate : string) : PairRow :=
  mkRow ip available_mark candidate available_mark (property_label prop).

(** A row as [find_pairs] appends it: for a seed with property [prop] and
    a different candidate with the same property. *)
Definition emitted (ext : IIPPropertyExtractor) (row : PairRow) : Prop :=
  exists (ip : string) (prop : Z) (c : string),
    row = make_row ip prop c
    /\ extract_property ext ip = Ok prop
    /\ extract_property ext c = Ok prop
    /\ c <> ip.

(** What the specification asks of a matched pair, for a strategy. *)
Definition matched_pair (ext : IIPPropertyExtractor) (row : PairRow) : Prop :=
  exists v : Z,
    extract_property ext (address1 row) = Ok v
    /\ extract_property ext (address2 row) = Ok v
    /\ property row = property_label v
    /\ address2 row <> address1 row.

(** What a run of the attempts loop for seed [ip] leaves behind: the tapes
    are untouched and the trace grows by [evs], where at most [n] calls of
    the generator are recorded and only addresses other than the seed are
    probed; if the loop finishes with [rows], exactly [n] calls were made,
    the candidates other than the seed were probed in order, and one row was
    appended for each of them that answered. *)
Definition loop_facts (ext : IIPPropertyExtractor) (ip : string) (prop : Z)
           (n : nat) (pairs : list PairRow) (w : World)
           (r : option (result (list PairRow))) (w' : World) : Prop :=
  rand_tape w' = rand_tape w /\ ping_tape w' = ping_tape w
  /\ exists evs : list event,
      trace w' = trace w ++ evs
      /\ (gen_calls evs <= n)%nat
      /\ Forall (fun p => fst p <> ip
                        /\ exists k, snd p = ping_tape w k (fst p))
                (probes evs)
      /\ forall rows, r = Some (Ok rows) ->
           gen_calls evs = n
           /\ rows = pairs ++ map (make_row ip prop) (answered evs)
           /\ map fst (probes evs) = filter (differs ip) (returned evs)
           /\ Forall (fun c => extract_property ext c = Ok prop)
                     (returned evs).

(** What one seed of a finished run leaves behind: the part [fst seg] of
    the trace that belongs to it and the rows [snd seg] it contributed.  The
    part starts with the probe of the seed; it records at most [attempts]
    calls of the generator (exactly that many for a reachable seed, none
    for an unreachable one); the candidates other than the seed, and only
    they, are probed; one row is contributed per candidate that answered. *)
Definition seed_segment (attempts : Z) (ip : string)
           (seg : list event * list PairRow) : Prop :=
  exists (up : bool) (evs : list event) (prop : Z),
    fst seg = EvProbe ip up :: evs
    /\ (gen_calls evs <= Z.to_nat attempts)%nat
    /\ (if up then gen_calls evs = Z.to_nat attempts else evs = [])
    /\ map fst (probes evs) = filter (differs ip) (returned evs)
    /\ snd seg = map (make_row ip prop) (answered evs).

(** The contract of an extractor the finder relies on: generating leaves
    the network and the trace alone, and a generated address has the
    requested property. *)
Definition lawful (ext : IIPPropertyExtractor) : Prop :=
  (forall fuel t w r w',
      generate_candidate ext fuel t w = (r, w') -> same_net w w')
  /\ (forall fuel t w c w',
         generate_candidate ext fuel t w = (Some (Ok c), w') ->
         extract_property ext c = Ok t).


(** A world whose generator delivers the numbers of a list, then zeros,
    and whose network answers the probes of the addresses [reach] accepts. *)
Definition stub_world (draws : list Z) (reach : string -> bool) : World :=
  mkWorld (fun k => nth k draws 0) 0 (fun _ ip => reach ip) 0 [].

Definition world_of_draws (draws : list Z) : World :=
  stub_world draws (fun _ => true).

(** A world in which only the seed 10.20.30.40 answers; the first round of
    draws gives the seed itself, the next two give other addresses. *)
Definition lonely_seed_world : World :=
  stub_world [10; 20; 30; 20; 20; 20; 30; 30; 30] (String.eqb "10.20.30.40").

(** A world whose generator always delivers [v], whose network gives the
    same answer [up] to every probe, and whose trace is empty. *)
Definition constant_world (v : Z) (up : bool) : World :=
  mkWorld (fun _ => v) 0 (fun _ _ => up) 0 [].

(** ** The address source *)

Module IPGenerator.

Definition domains : list string :=
  [
    "google.com"; "youtube.com"; "facebook.com"; "instagram.com"; "x.com";
    "whatsapp.com"; "chatgpt.com"; "wikipedia.org"; "reddit.com";
    "yahoo.com"; "yahoo.co.jp"; "yandex.ru"; "amazon.com"; "tiktok.com";
    "baidu.com"; "microsoftonline.com"; "linkedin.com"; "netflix.com";
    "pornhub.com"; "dzen.ru"; "naver.com"; "bet.br"; "live.com";
    "office.com"; "bing.com"; "bilibili.com"; "pinterest.com";
    "microsoft.com"; "xvideos.com"; "twitch.tv"; "xhamster.com"; "temu.com";
    "vk.com"; "mail.ru"; "news.yahoo.co.jp"; "sharepoint.com";
    "weather.com"; "samsung.com"; "fandom.com"; "globo.com"; "canva.com";
    "t.me"; "duckduckgo.com"; "xnxx.com"; "xhamster43.desi"; "nytimes.com";
    "deepseek.com"; "zoom.us"; "stripchat.com"; "quora.com"
  ]%string.

(** The loop [for domain in domains] of [generate_ip_addresses]:
    [gethostbyname k d] is what the [k]-th name lookup of the process gives
    for [d], an address or an exception; an exception is caught and the
    domain is skipped.  Returns the addresses appended to [ips] and the
    number of lookups made so far. *)
Fixpoint resolve_loop (gethostbyname : nat -> string -> result string)
         (k : nat) (ds : list string) (ips : list string)
  : list string * nat :=
  match ds with
  | [] => (ips, k)
  | domain :: rest =>
      match gethostbyname k domain with
      | Ok ip => resolve_loop gethostbyname (S k) rest (ips ++ [ip])
      | Raise _ => resolve_loop gethostbyname (S k) rest ips
      end
  end.

Definition generate_ip_addresses
           (gethostbyname : nat -> string -> result string) (k : nat)
  : list string * nat :=
  resolve_loop gethostbyname k domains [].

End IPGenerator.

(** ** The program *)

Module Main.

(** [IPPairFinder(checker)]: the default of [attempts]. *)
Definition default_attempts : Z := 10.

(** [main]: the octet-sum application, then the bit-count application,
    with one checker, one generator and one finder.  Each [run] asks the
    generator for the addresses again.  The result is what the two runs
    handed to their writers. *)
Definition main (gethostbyname : nat -> string -> result string)
           (fuel : nat)
  : M ((list string * list PairRow) * (list string * list PairRow)) :=
  let '(ips_sum, k) :=
    IPGenerator.generate_ip_addresses gethostbyname 0 in
  sink_sum <- IPApp.run default_attempts fuel ips_sum
                SumOctetsExtractor.extractor ;;
  let '(ips_ones, _) :=
    IPGenerator.generate_ip_addresses gethostbyname k in
  sink_ones <- IPApp.run default_attempts fuel ips_ones
                 CountOnesExtractor.extractor ;;
  ret (sink_sum, sink_ones).

End Main.

(** ** Further reference notions *)

(** The addresses a list of lookups resolves, in order: the lookup of the
    [i]-th domain is lookup number [k + i]. *)
Fixpoint resolved (gethostbyname : nat -> string -> result string)
         (k : nat) (ds : list string) : list string :=
  match ds with
  | [] => []
  | d :: rest =>
      match gethostbyname k d with
      | Ok ip => ip :: resolved gethostbyname (S k) rest
      | Raise _ => resolved gethostbyname (S k) rest
      end
  end.

(** A decimal numeral without a leading zero, of any size. *)
Definition plain_decimal (s : string) : option Z :=
  match s with
  | EmptyString => None
  | String c r =>
      if Spec.all_chars PyStr.is_digit s
         && (negb (Ascii.eqb c "0") || String.eqb r EmptyString)
      then Some (Spec.decimal_value s)
      else None
  end.

(** The property of the address with octets [a b c d] under a strategy. *)
Definition property_of (s : strategy) (a b c d : Z) : Z :=
  match s with
  | OctetSum => a + b + c + d
  | BitPopcount => Spec.popcount 32 (Spec.address_int a b c d)
  end.

(** The largest valid target of a strategy. *)
Definition max_target (s : strategy) : Z :=
  match s with
  | OctetSum => 1020
  | BitPopcount => 32
  end.


(** [cand] is the text of an address with octets in range whose property
    under [s] is [t]. *)
Definition generated_address (s : strategy) (t : Z) (cand : string) : Prop :=
  exists a b c d : Z,
    cand = Socket.dotted a b c d
    /\ 0 <= a <= 255 /\ 0 <= b <= 255 /\ 0 <= c <= 255 /\ 0 <= d <= 255
    /\ property_of s a b c d = t.

(** A row whose candidate was generated for the property of its seed. *)
Definition generated_row (s : strategy) (row : PairRow) : Prop :=
  exists prop : Z,
    extract_property (extractor_of s) (address1 row) = Ok prop
    /\ generated_address s prop (address2 row)
    /\ address2 row <> address1 row.

(** [ips] with the [i]-th address repeated [counts i] times. *)
Fixpoint grouped (ips : list string) (counts : list nat) : list string :=
  match ips, counts with
  | ip :: ips', k :: counts' => repeat ip k ++ grouped ips' counts'
  | _, _ => []
  end.



(** Name lookups that only know google.com. *)
Definition lookup_google_only (k : nat) (domain : string) : result string :=
  if String.eqb domain "google.com" then Ok "10.20.30.40"%string
  else Raise OSError.

(** * Properties of the string primitives *)

Ltac zbool :=
  repeat match goal with
         | H : context [?a <=? ?b] |- _ => destruct (Z.leb_spec a b)
         | |- context [?a <=? ?b] => destruct (Z.leb_spec a b)
         | H : context [?a <? ?b] |- _ => destruct (Z.ltb_spec a b)
         | |- context [?a <? ?b] => destruct (Z.ltb_spec a b)
         | H : context [?a =? ?b] |- _ => destruct (Z.eqb_spec a b)
         | |- context [?a =? ?b] => destruct (Z.eqb_spec a b)
         end;
  simpl in *; try discriminate; try reflexivity; try lia.

Section StringFacts.

Import PyStr Spec.

Lemma digit_not_space c : is_digit c = true -> is_space c = false.
Proof. unfold is_digit, is_space. intros H. zbool. Qed.

Lemma digit_neq c x : is_digit c = true -> is_digit x = false ->
                      Ascii.eqb c x = false.
Proof.
  intros Hc Hx. destruct (Ascii.eqb c x) eqn:E; [|reflexivity].
  apply Ascii.eqb_eq in E. subst. congruence.
Qed.

Lemma lstrip_digits s : all_chars is_digit s = true -> lstrip s = s.
Proof.
  destruct s as [|c r]; simpl; [reflexivity|].
  intros H. apply andb_true_iff in H as [Hc _].
  now rewrite (digit_not_space _ Hc).
Qed.

Lemma rstrip_digits s : all_chars is_digit s = true -> rstrip s = s.
Proof.
  induction s as [|c r IH]; simpl; [reflexivity|].
  intros H. apply andb_true_iff in H as [Hc Hr].
  rewrite (IH Hr), (digit_not_space _ Hc). now destruct r.
Qed.

Lemma strip_digits s : all_chars is_digit s = true -> strip s = s.
Proof.
  intros H. unfold strip. rewrite (lstrip_digits _ H). now apply rstrip_digits.
Qed.

Lemma digits_acc_horner s : forall acc prev,
    all_chars is_digit s = true ->
    s <> EmptyString \/ prev = true ->
    digits_acc acc prev s = Some (horner acc s).
Proof.
  induction s as [|c r IH]; simpl; intros acc prev H Hne.
  - destruct Hne as [Hne | ->]; [now elim Hne | reflexivity].
  - apply andb_true_iff in H as [Hc Hr]. rewrite Hc.
    unfold digit_val. apply IH; auto.
Qed.

(** [int] on a string of decimal digits is its Horner value. *)
Lemma int_decimal s : is_decimal s = true -> int s = Ok (decimal_value s).
Proof.
  unfold is_decimal. intros H. apply andb_true_iff in H as [Hne Hd].
  unfold int. rewrite (strip_digits _ Hd).
  destruct s as [|c r]; [discriminate|].
  pose proof Hd as Hd'. simpl in Hd'. apply andb_true_iff in Hd' as [Hc _].
  rewrite (digit_neq c "+" Hc eq_refl), (digit_neq c "-" Hc eq_refl).
  rewrite (digits_acc_horner _ 0 false Hd) by (left; discriminate).
  unfold decimal_value. f_equal. lia.
Qed.

Lemma split_nonempty sep s : split sep s <> [].
Proof.
  destruct s as [|c r]; simpl; [discriminate|].
  destruct (Ascii.eqb c sep); [discriminate|].
  destruct (split sep r); discriminate.
Qed.

Lemma split_field s : no_dot s = true -> split "." s = [s].
Proof.
  induction s as [|c r IH]; simpl; [reflexivity|].
  intros H. apply andb_true_iff in H as [Hc Hr].
  apply negb_true_iff in Hc. rewrite Hc, (IH Hr). reflexivity.
Qed.

Lemma split_cons s rest :
  no_dot s = true ->
  split "." (s ++ String "." rest) = s :: split "." rest.
Proof.
  induction s as [|c r IH]; simpl; [reflexivity|].
  intros H. apply andb_true_iff in H as [Hc Hr].
  apply negb_true_iff in Hc. rewrite Hc, (IH Hr). reflexivity.
Qed.

Lemma digits_no_dot s : all_chars is_digit s = true -> no_dot s = true.
Proof.
  unfold no_dot. induction s as [|c r IH]; cbn [all_chars]; [reflexivity|].
  intros H. apply andb_true_iff in H as [Hc Hr].
  rewrite (digit_neq c "." Hc eq_refl), (IH Hr). reflexivity.
Qed.

Lemma canonical_octet_inv s a :
  canonical_octet s = Some a ->
  is_decimal s = true /\ a = decimal_value s /\ a <= 255
  /\ (s = "0"%string \/ exists c r, s = String c r /\ Ascii.eqb c "0" = false).
Proof.
  unfold canonical_octet. destruct s as [|c r]; [discriminate|].
  destruct (all_chars is_digit (String c r)) eqn:Hd; [|discriminate].
  destruct (negb (Ascii.eqb c "0") || String.eqb r EmptyString) eqn:Hz;
    [|discriminate].
  destruct (decimal_value (String c r) <=? 255) eqn:Hv; [|discriminate].
  simpl. intros [= <-]. unfold is_decimal. rewrite Hd. simpl.
  repeat split; [now apply Z.leb_le|].
  destruct (Ascii.eqb c "0") eqn:Hc.
  - simpl in Hz. apply String.eqb_eq in Hz. apply Ascii.eqb_eq in Hc.
    subst. now left.
  - right. eauto.
Qed.

Lemma horner_lower s : forall acc,
    all_chars is_digit s = true -> 0 <= acc -> 0 <= horner acc s.
Proof.
  induction s as [|c r IH]; cbn [horner all_chars]; intros acc H Hacc;
    [assumption|].
  apply andb_true_iff in H as [Hc Hr]. apply IH; [assumption|].
  unfold is_digit in Hc. apply andb_true_iff in Hc as [Hlo _].
  apply Z.leb_le in Hlo. lia.
Qed.

Lemma canonical_octet_range s a : canonical_octet s = Some a -> 0 <= a <= 255.
Proof.
  intros H. apply canonical_octet_inv in H as (Hd & -> & Hle & _).
  split; [|assumption]. unfold is_decimal in Hd.
  apply andb_true_iff in Hd as [_ Hd]. now apply horner_lower.
Qed.

Lemma canonical_octet_int s a : canonical_octet s = Some a -> int s = Ok a.
Proof.
  intros H. apply canonical_octet_inv in H as (Hd & -> & _). now apply int_decimal.
Qed.

Lemma canonical_octet_no_dot s a : canonical_octet s = Some a -> no_dot s = true.
Proof.
  intros H. apply canonical_octet_inv in H as (Hd & _).
  unfold is_decimal in Hd. apply andb_true_iff in Hd as [_ Hd].
  now apply digits_no_dot.
Qed.

(** The program's splitting recovers the four fields of a dotted quad. *)
Lemma split_dotted_quad sa sb sc sd :
  no_dot sa = true -> no_dot sb = true -> no_dot sc = true ->
  no_dot sd = true ->
  split "." (sa ++ "." ++ sb ++ "." ++ sc ++ "." ++ sd) = [sa; sb; sc; sd].
Proof.
  intros Ha Hb Hc Hd.
  change (split "." (sa ++ String "." (sb ++ String "." (sc ++ String "." sd)))
          = [sa; sb; sc; sd]).
  rewrite (split_cons _ _ Ha), (split_cons _ _ Hb), (split_cons _ _ Hc).
  now rewrite (split_field _ Hd).
Qed.

End StringFacts.

(** * SumOctetsExtractor.extract_property *)

Section SumOctets.

Import PyStr Spec.





Lemma sum_extract_dotted_quad s a b c d :
  is_dotted_quad s a b c d ->
  SumOctetsExtractor.extract_property s = Ok (a + b + c + d).
Proof.
  intros (sa & sb & sc & sd & -> & Ha & Hb & Hc & Hd).
  unfold SumOctetsExtractor.extract_property.
  rewrite split_dotted_quad by (eapply canonical_octet_no_dot; eassumption).
  cbn [sum_ints].
  rewrite (canonical_octet_int _ _ Ha), (canonical_octet_int _ _ Hb),
    (canonical_octet_int _ _ Hc), (canonical_octet_int _ _ Hd).
  f_equal.
Qed.

End SumOctets.

(** C8: on the dotted-quad text of an address with octets [a b c d],
    [SumOctetsExtractor.extract_property] returns [a + b + c + d], which
    lies in [0, 1020]; "10.20.30.40" gives 100. *)
Theorem sum_extract_valid_address (s : string) (a b c d : Z) :
  Spec.is_dotted_quad s a b c d ->
  SumOctetsExtractor.extract_property s = Ok (a + b + c + d)
  /\ 0 <= a + b + c + d <= 1020
  /\ SumOctetsExtractor.extract_property "10.20.30.40" = Ok 100.
Proof.
  intros H. split; [now apply sum_extract_dotted_quad|]. split; [|reflexivity].
  destruct H as (sa & sb & sc & sd & _ & Ha & Hb & Hc & Hd).
  apply canonical_octet_range in Ha, Hb, Hc, Hd. lia.
Qed.

Lemma sum_extract_valid_address_witness :
  Spec.is_dotted_quad "192.168.1.7" 192 168 1 7
  /\ SumOctetsExtractor.extract_property "192.168.1.7" = Ok 368.
Proof.
  assert (H : Spec.is_dotted_quad "192.168.1.7" 192 168 1 7).
  { exists "192"%string, "168"%string, "1"%string, "7"%string.
    repeat split; reflexivity. }
  split; [exact H|].
  exact (proj1 (sum_extract_valid_address "192.168.1.7" 192 168 1 7 H)).
Defined.



(** * CountOnesExtractor.extract_property *)

Section Popcount.

Import PyStr Spec.

Lemma count_append c s1 s2 :
  count c (s1 ++ s2) = count c s1 + count c s2.
Proof.
  induction s1 as [|x r IH]; cbn [append count]; [reflexivity|].
  rewrite IH. lia.
Qed.

Lemma popcount_zero k : popcount k 0 = 0.
Proof.
  induction k as [|k IH]; cbn [popcount]; [reflexivity|].
  rewrite IH, Z.testbit_0_l. reflexivity.
Qed.

Lemma popcount_range k n : 0 <= popcount k n <= Z.of_nat k.
Proof.
  induction k as [|k IH]; cbn [popcount]; [lia|].
  destruct (Z.testbit n (Z.of_nat k)); lia.
Qed.

(** Peeling the lowest bit instead of the highest. *)
Lemma popcount_low k n :
  popcount (S k) n
  = (if Z.testbit n 0 then 1 else 0) + popcount k (Z.div2 n).
Proof.
  induction k as [|k IH].
  - cbn [popcount]. change (Z.of_nat 0) with 0.
    destruct (Z.testbit n 0); reflexivity.
  - change (popcount (S (S k)) n)
      with (popcount (S k) n
            + (if Z.testbit n (Z.of_nat (S k)) then 1 else 0)).
    rewrite IH. cbn [popcount].
    assert (Hbit : Z.testbit (Z.div2 n) (Z.of_nat k)
                   = Z.testbit n (Z.of_nat (S k))).
    { rewrite Z.div2_spec, Z.shiftr_spec by lia. f_equal. lia. }
    rewrite Hbit. lia.
Qed.

Lemma count_bits_popcount p : forall k,
    Zpos p < 2 ^ Z.of_nat k ->
    count "1" (bits_of_positive p) = popcount k (Zpos p).
Proof.
  induction p as [q IH | q IH |]; intros k Hk;
    (destruct k as [|k]; [change (2 ^ Z.of_nat 0) with 1 in Hk; lia|]);
    rewrite popcount_low; cbn [bits_of_positive];
    rewrite Nat2Z.inj_succ, Z.pow_succ_r in Hk by lia.
  - rewrite count_append. change (Z.div2 (Z.pos q~1)) with (Z.pos q).
    rewrite (IH k) by lia. apply Z.add_comm.
  - rewrite count_append. change (Z.div2 (Z.pos q~0)) with (Z.pos q).
    rewrite (IH k) by lia. apply Z.add_comm.
  - change (Z.div2 1) with 0. rewrite popcount_zero. reflexivity.
Qed.

(** Counting the character 1 in [bin n] counts the bits set in [n]. *)
Lemma count_bin_popcount k n :
  0 <= n < 2 ^ Z.of_nat k -> count "1" (bin n) = popcount k n.
Proof.
  intros [Hlo Hhi]. destruct n as [|p|p]; [| |lia].
  - now rewrite popcount_zero.
  - unfold bin. rewrite count_append, (count_bits_popcount p k Hhi).
    reflexivity.
Qed.

End Popcount.

Section InetAton.

Import PyStr Spec Socket.

Lemma append_empty_r s : (s ++ "")%string = s.
Proof. induction s as [|c r IH]; cbn [append]; congruence. Qed.

Lemma digit_in_base_10 c :
  is_digit c = true -> digit_in_base 10 c = Some (code c - 48).
Proof.
  unfold is_digit, digit_in_base, hex_val. intros H. rewrite H.
  apply andb_true_iff in H as [_ H]. apply Z.leb_le in H.
  destruct (Z.ltb_spec (code c - 48) 10); [reflexivity|lia].
Qed.

Lemma scan_digits_decimal s : forall acc rest,
    all_chars is_digit s = true -> field_end rest ->
    scan_digits 10 acc (s ++ rest) = (horner acc s, rest).
Proof.
  induction s as [|c r IH]; cbn [append all_chars horner];
    intros acc rest H Hend.
  - destruct Hend as [-> | [r' ->]]; reflexivity.
  - apply andb_true_iff in H as [Hc Hr]. cbn [scan_digits].
    rewrite (digit_in_base_10 _ Hc), (IH _ _ Hr Hend).
    f_equal. f_equal. lia.
Qed.

Lemma scan_number_octet s a rest :
  canonical_octet s = Some a -> field_end rest ->
  scan_number (s ++ rest) = (a, rest).
Proof.
  intros H Hend.
  apply canonical_octet_inv in H as (Hd & -> & _ & Hz).
  unfold is_decimal in Hd. apply andb_true_iff in Hd as [_ Hd].
  destruct Hz as [-> | (c & r & -> & Hc)].
  - destruct Hend as [-> | [r' ->]]; [reflexivity|].
    destruct r'; reflexivity.
  - cbn [append scan_number]. rewrite Hc.
    change (String c (r ++ rest)) with (String c r ++ rest)%string.
    now apply scan_digits_decimal.
Qed.

Lemma aton_parts_eq slots stored s :
  aton_parts slots stored s =
  match s with
  | EmptyString => None
  | String c _ =>
      if is_digit c then
        let '(val, rest) := scan_number s in
        if 4294967295 <? val then None
        else match rest with
             | EmptyString => Some (stored, val, rest)
             | String x rest' =>
                 if Ascii.eqb x "." then
                   match slots with
                   | O => None
                   | S k =>
                       if 255 <? val then None
                       else aton_parts k (stored ++ [val]) rest'
                   end
                 else Some (stored, val, rest)
             end
      else None
  end.
Proof. destruct slots; reflexivity. Qed.

Lemma canonical_octet_head s a :
  canonical_octet s = Some a ->
  exists c r, s = String c r /\ is_digit c = true.
Proof.
  intros H. apply canonical_octet_inv in H as (Hd & _).
  unfold is_decimal in Hd. apply andb_true_iff in Hd as [Hne Hd].
  destruct s as [|c r]; [discriminate|].
  cbn [all_chars] in Hd. apply andb_true_iff in Hd as [Hc _]. eauto.
Qed.

Lemma aton_parts_dot s a k stored rest :
  canonical_octet s = Some a ->
  aton_parts (S k) stored (s ++ String "." rest)
  = aton_parts k (stored ++ [a]) rest.
Proof.
  intros H. rewrite aton_parts_eq.
  destruct (canonical_octet_head _ _ H) as (c & r & Hs & Hc).
  rewrite (scan_number_octet s a (String "." rest) H)
    by (right; eauto).
  pose proof (canonical_octet_range _ _ H) as Hr.
  subst s. cbn [append]. rewrite Hc.
  destruct (Z.ltb_spec 4294967295 a); [lia|].
  destruct (Z.ltb_spec 255 a); [lia|]. reflexivity.
Qed.

Lemma aton_parts_last s a k stored :
  canonical_octet s = Some a ->
  aton_parts k stored s = Some (stored, a, EmptyString).
Proof.
  intros H. rewrite aton_parts_eq.
  destruct (canonical_octet_head _ _ H) as (c & r & Hs & Hc).
  pose proof (scan_number_octet s a EmptyString H (or_introl eq_refl)) as Hn.
  rewrite append_empty_r in Hn. rewrite Hn.
  pose proof (canonical_octet_range _ _ H) as Hr.
  subst s. rewrite Hc.
  destruct (Z.ltb_spec 4294967295 a); [lia|]. reflexivity.
Qed.

(** [inet_aton] packs a canonical dotted quad into its four octets. *)
Lemma inet_aton_dotted_quad s a b c d :
  is_dotted_quad s a b c d -> inet_aton s = Ok [a; b; c; d].
Proof.
  intros (sa & sb & sc & sd & -> & Ha & Hb & Hc & Hd).
  unfold inet_aton.
  change (sa ++ "." ++ sb ++ "." ++ sc ++ "." ++ sd)%string
    with (sa ++ String "." (sb ++ String "." (sc ++ String "." sd)))%string.
  rewrite (aton_parts_dot _ _ _ _ _ Ha), (aton_parts_dot _ _ _ _ _ Hb),
    (aton_parts_dot _ _ _ _ _ Hc), (aton_parts_last _ _ _ _ Hd).
  pose proof (canonical_octet_range _ _ Hd) as Hr.
  cbn [app List.length Nat.sub andb be_bytes Nat2Z.inj_succ].
  change (256 ^ Z.of_nat 1) with 256. change (256 ^ Z.of_nat 0) with 1.
  destruct (Z.ltb_spec d 256); [|lia].
  rewrite Z.div_1_r, Z.mod_small by lia. reflexivity.
Qed.

Lemma from_bytes_quad a b c d :
  from_bytes [a; b; c; d] = address_int a b c d.
Proof. unfold from_bytes, address_int. cbn [fold_left]. lia. Qed.

Lemma address_int_range a b c d :
  0 <= a <= 255 -> 0 <= b <= 255 -> 0 <= c <= 255 -> 0 <= d <= 255 ->
  0 <= address_int a b c d < 2 ^ 32.
Proof. unfold address_int. lia. Qed.

Lemma count_extract_dotted_quad s a b c d :
  is_dotted_quad s a b c d ->
  CountOnesExtractor.extract_property s
  = Ok (popcount 32 (address_int a b c d)).
Proof.
  intros H. unfold CountOnesExtractor.extract_property.
  rewrite (inet_aton_dotted_quad _ _ _ _ _ H). cbn [result_bind].
  rewrite from_bytes_quad. f_equal.
  apply (count_bin_popcount 32).
  destruct H as (sa & sb & sc & sd & _ & Ha & Hb & Hc & Hd).
  apply canonical_octet_range in Ha, Hb, Hc, Hd.
  now apply address_int_range.
Qed.

End InetAton.

(** C9: on the dotted-quad text of an address with octets [a b c d],
    [CountOnesExtractor.extract_property] returns the number of bits set in
    its 32-bit big-endian integer, a value in [0, 32]; "255.255.255.255"
    gives 32 and "0.0.0.0" gives 0. *)
Theorem count_extract_valid_address (s : string) (a b c d : Z) :
  Spec.is_dotted_quad s a b c d ->
  CountOnesExtractor.extract_property s
  = Ok (Spec.popcount 32 (Spec.address_int a b c d))
  /\ 0 <= Spec.popcount 32 (Spec.address_int a b c d) <= 32
  /\ CountOnesExtractor.extract_property "255.255.255.255" = Ok 32
  /\ CountOnesExtractor.extract_property "0.0.0.0" = Ok 0.
Proof.
  intros H. split; [now apply count_extract_dotted_quad|].
  split; [apply (popcount_range 32)|]. split; reflexivity.
Qed.

Lemma count_extract_valid_address_witness :
  Spec.is_dotted_quad "192.168.1.7" 192 168 1 7
  /\ CountOnesExtractor.extract_property "192.168.1.7" = Ok 9.
Proof.
  assert (H : Spec.is_dotted_quad "192.168.1.7" 192 168 1 7).
  { exists "192"%string, "168"%string, "1"%string, "7"%string.
    repeat split; reflexivity. }
  split; [exact H|].
  exact (proj1 (count_extract_valid_address "192.168.1.7" 192 168 1 7 H)).
Defined.

(** Outside the canonical form the two extractors read an octet
    differently: a leading zero means octal to [inet_aton] and nothing to
    [int]. *)
Example leading_zero_octet :
  CountOnesExtractor.extract_property "010.0.0.0" = Ok 1
  /\ SumOctetsExtractor.extract_property "010.0.0.0" = Ok 10.
Proof. split; reflexivity. Qed.

(** * Candidate generation *)

Section Rendering.

Import PyStr Spec Socket.

Lemma str_octets_checked :
  forallb (fun k => match canonical_octet (str (Z.of_nat k)) with
                    | Some v => v =? Z.of_nat k
                    | None => false
                    end) (seq 0 256) = true.
Proof. vm_compute. reflexivity. Qed.

(** [str] writes an octet in canonical form. *)
Lemma str_octet n : 0 <= n <= 255 -> canonical_octet (str n) = Some n.
Proof.
  intros Hn. pose proof str_octets_checked as H.
  rewrite forallb_forall in H. specialize (H (Z.to_nat n)).
  rewrite Z2Nat.id in H by lia.
  assert (Hin : In (Z.to_nat n) (seq 0 256)) by (apply in_seq; lia).
  specialize (H Hin). destruct (canonical_octet (str n)) as [v|];
    [|discriminate].
  apply Z.eqb_eq in H. now subst.
Qed.

Lemma dotted_is_dotted_quad a b c d :
  0 <= a <= 255 -> 0 <= b <= 255 -> 0 <= c <= 255 -> 0 <= d <= 255 ->
  is_dotted_quad (dotted a b c d) a b c d.
Proof.
  intros Ha Hb Hc Hd. exists (str a), (str b), (str c), (str d).
  split; [reflexivity|]. auto using str_octet.
Qed.

Lemma be_bytes_quad n :
  0 <= n < 2 ^ 32 ->
  exists a b c d,
    be_bytes 4 n = [a; b; c; d]
    /\ 0 <= a <= 255 /\ 0 <= b <= 255 /\ 0 <= c <= 255 /\ 0 <= d <= 255
    /\ address_int a b c d = n.
Proof.
  intros Hn. cbn [be_bytes].
  change (256 ^ Z.of_nat 3) with 16777216.
  change (256 ^ Z.of_nat 2) with 65536.
  change (256 ^ Z.of_nat 1) with 256.
  change (256 ^ Z.of_nat 0) with 1.
  do 4 eexists. split; [reflexivity|]. unfold address_int.
  change (2 ^ 24) with 16777216. change (2 ^ 16) with 65536.
  change (2 ^ 8) with 256. change (2 ^ 32) with 4294967296 in Hn.
  Z.div_mod_to_equations. lia.
Qed.

End Rendering.

Section Generators.

Import PyStr Spec Socket.

Lemma same_net_refl w : same_net w w.
Proof. repeat split. Qed.

Lemma same_net_trans w1 w2 w3 :
  same_net w1 w2 -> same_net w2 w3 -> same_net w1 w3.
Proof. unfold same_net. intuition congruence. Qed.

Lemma same_net_advance w n : same_net w (advance w n).
Proof. repeat split. Qed.

Lemma drawn_range w k lo hi : lo <= hi -> lo <= drawn w k lo hi <= hi.
Proof.
  intros H. unfold drawn.
  pose proof (Z.mod_pos_bound (rand_tape w (k + rand_pos w)) (hi - lo + 1)).
  lia.
Qed.

Lemma drawn_advance w n k lo hi :
  drawn (advance w n) k lo hi = drawn w (k + n) lo hi.
Proof.
  unfold drawn, advance. cbn [rand_tape rand_pos].
  now rewrite Nat.add_assoc.
Qed.

(** One round of [SumOctetsExtractor.generate_candidate]. *)
Lemma sum_generate_round fuel t w :
  SumOctetsExtractor.generate_candidate (S fuel) t w =
  let a := drawn w 0 0 255 in
  let b := drawn w 1 0 255 in
  let c := drawn w 2 0 255 in
  let d := t - (a + b + c) in
  if (0 <=? d) && (d <=? 255)
  then (Some (Ok (dotted a b c d)), advance w 3)
  else SumOctetsExtractor.generate_candidate fuel t (advance w 3).
Proof.
  transitivity
    ((let a := drawn w 0 0 255 in
      let b := drawn w 1 0 255 in
      let c := drawn w 2 0 255 in
      let d := t - (a + b + c) in
      if (0 <=? d) && (d <=? 255) then ret (dotted a b c d)
      else SumOctetsExtractor.generate_candidate fuel t) (advance w 3));
    [reflexivity|].
  cbv zeta. destruct ((0 <=? _) && (_ <=? 255)); reflexivity.
Qed.

Lemma sum_generate_spec fuel : forall t w cand w',
    SumOctetsExtractor.generate_candidate fuel t w = (Some (Ok cand), w') ->
    exists a b c d,
      cand = dotted a b c d /\ a + b + c + d = t
      /\ 0 <= a <= 255 /\ 0 <= b <= 255 /\ 0 <= c <= 255 /\ 0 <= d <= 255.
Proof.
  induction fuel as [|fuel IH]; intros t w cand w' H; [discriminate|].
  rewrite sum_generate_round in H. cbv zeta in H.
  destruct ((0 <=? _) && (_ <=? 255)) eqn:Hd in H.
  - apply andb_true_iff in Hd as [Hlo Hhi]. apply Z.leb_le in Hlo, Hhi.
    exists (drawn w 0 0 255), (drawn w 1 0 255), (drawn w 2 0 255),
      (t - (drawn w 0 0 255 + drawn w 1 0 255 + drawn w 2 0 255)).
    split; [congruence|].
    pose proof (drawn_range w 0 0 255). pose proof (drawn_range w 1 0 255).
    pose proof (drawn_range w 2 0 255). lia.
  - eapply IH; eassumption.
Qed.

Lemma sum_generate_frame fuel : forall t w r w',
    SumOctetsExtractor.generate_candidate fuel t w = (r, w') ->
    same_net w w' /\ (forall e, r <> Some (Raise e)).
Proof.
  induction fuel as [|fuel IH]; intros t w r w' H.
  - injection H as <- <-. split; [apply same_net_refl|discriminate].
  - rewrite sum_generate_round in H. cbv zeta in H.
    destruct ((0 <=? _) && (_ <=? 255)) in H.
    + injection H as <- <-. split; [apply same_net_advance|discriminate].
    + apply IH in H as [Hn Hr]. split; [|assumption].
      eapply same_net_trans; [apply same_net_advance|eassumption].
Qed.

(** One round of [CountOnesExtractor.generate_candidate]. *)
Lemma count_generate_round fuel t w :
  CountOnesExtractor.generate_candidate (S fuel) t w =
  let ip_int := drawn w 0 0 (2 ^ 32 - 1) in
  if count "1" (bin ip_int) =? t
  then (Some (result_bind (to_bytes ip_int 4) inet_ntoa), advance w 1)
  else CountOnesExtractor.generate_candidate fuel t (advance w 1).
Proof.
  transitivity
    ((let ip_int := drawn w 0 0 (2 ^ 32 - 1) in
      if count "1" (bin ip_int) =? t
      then packed <- lift (to_bytes ip_int 4) ;; lift (inet_ntoa packed)
      else CountOnesExtractor.generate_candidate fuel t) (advance w 1));
    [reflexivity|].
  cbv zeta. destruct (count "1" (bin _) =? t); [|reflexivity].
  unfold bind, lift. destruct (to_bytes _ 4); reflexivity.
Qed.

Lemma to_bytes_drawn w :
  exists a b c d,
    result_bind (to_bytes (drawn w 0 0 (2 ^ 32 - 1)) 4) inet_ntoa
    = Ok (dotted a b c d)
    /\ 0 <= a <= 255 /\ 0 <= b <= 255 /\ 0 <= c <= 255 /\ 0 <= d <= 255
    /\ address_int a b c d = drawn w 0 0 (2 ^ 32 - 1).
Proof.
  pose proof (drawn_range w 0 0 (2 ^ 32 - 1)) as Hr.
  set (n := drawn w 0 0 (2 ^ 32 - 1)) in *.
  assert (Hn : 0 <= n < 2 ^ 32) by lia.
  destruct (be_bytes_quad n Hn) as (a & b & c & d & Hb & Ha & Hb' & Hc & Hd & Hv).
  exists a, b, c, d. unfold to_bytes.
  change (256 ^ Z.of_nat 4) with (2 ^ 32).
  destruct (Z.ltb_spec n 0); [lia|].
  destruct (Z.leb_spec (2 ^ 32) n); [lia|].
  cbn [orb result_bind]. rewrite Hb. cbn [inet_ntoa]. auto 10.
Qed.

Lemma count_generate_spec fuel : forall t w cand w',
    CountOnesExtractor.generate_candidate fuel t w = (Some (Ok cand), w') ->
    exists a b c d,
      cand = dotted a b c d /\ popcount 32 (address_int a b c d) = t
      /\ 0 <= a <= 255 /\ 0 <= b <= 255 /\ 0 <= c <= 255 /\ 0 <= d <= 255.
Proof.
  induction fuel as [|fuel IH]; intros t w cand w' H; [discriminate|].
  rewrite count_generate_round in H. cbv zeta in H.
  destruct (count "1" (bin _) =? t) eqn:Ht in H.
  - destruct (to_bytes_drawn w) as (a & b & c & d & Hb & Ha & Hb' & Hc & Hd & Hv).
    rewrite Hb in H. injection H as <- _.
    exists a, b, c, d. split; [reflexivity|]. split; [|auto].
    apply Z.eqb_eq in Ht. rewrite Hv, <- Ht. symmetry.
    apply (count_bin_popcount 32).
    pose proof (drawn_range w 0 0 (2 ^ 32 - 1)). lia.
  - eapply IH; eassumption.
Qed.

Lemma count_generate_frame fuel : forall t w r w',
    CountOnesExtractor.generate_candidate fuel t w = (r, w') ->
    same_net w w' /\ (forall e, r <> Some (Raise e)).
Proof.
  induction fuel as [|fuel IH]; intros t w r w' H.
  - injection H as <- <-. split; [apply same_net_refl|discriminate].
  - rewrite count_generate_round in H. cbv zeta in H.
    destruct (count "1" (bin _) =? t) in H.
    + destruct (to_bytes_drawn w) as (a & b & c & d & Hb & _).
      rewrite Hb in H. injection H as <- <-.
      split; [apply same_net_advance|discriminate].
    + apply IH in H as [Hn Hr]. split; [|assumption].
      eapply same_net_trans; [apply same_net_advance|eassumption].
Qed.

(** Both generators return text whose property is the target. *)
Lemma generate_round_trip s fuel t w cand w' :
  generate_candidate (extractor_of s) fuel t w = (Some (Ok cand), w') ->
  extract_property (extractor_of s) cand = Ok t.
Proof.
  destruct s; cbn [extractor_of generate_candidate extract_property]; intros H.
  - apply sum_generate_spec in H as (a & b & c & d & -> & <- & Ha & Hb & Hc & Hd).
    apply sum_extract_dotted_quad. now apply dotted_is_dotted_quad.
  - apply count_generate_spec in H as (a & b & c & d & -> & <- & Ha & Hb & Hc & Hd).
    apply count_extract_dotted_quad. now apply dotted_is_dotted_quad.
Qed.

Lemma generate_frame s fuel t w r w' :
  generate_candidate (extractor_of s) fuel t w = (r, w') ->
  same_net w w' /\ (forall e, r <> Some (Raise e)).
Proof.
  destruct s; cbn [extractor_of generate_candidate].
  - apply sum_generate_frame.
  - apply count_generate_frame.
Qed.

End Generators.



(** * Termination of the rejection-sampling loops *)

Section Termination.

Import PyStr Spec Socket.

Lemma sum_round_accepts_advance t w k :
  sum_round_accepts t (advance w 3) k = sum_round_accepts t w (S k).
Proof.
  unfold sum_round_accepts. rewrite !drawn_advance.
  replace (3 * k + 3)%nat with (3 * S k)%nat by lia.
  replace (3 * k + 1 + 3)%nat with (3 * S k + 1)%nat by lia.
  replace (3 * k + 2 + 3)%nat with (3 * S k + 2)%nat by lia.
  reflexivity.
Qed.

Lemma count_round_accepts_advance t w k :
  count_round_accepts t (advance w 1) k = count_round_accepts t w (S k).
Proof.
  unfold count_round_accepts. rewrite drawn_advance.
  now replace (k + 1)%nat with (S k) by lia.
Qed.



(** A loop whose rounds never pass the test never returns. *)
Lemma sum_generate_spins fuel : forall t w,
    (forall k, sum_round_accepts t w k = false) ->
    fst (SumOctetsExtractor.generate_candidate fuel t w) = None.
Proof.
  induction fuel as [|fuel IH]; intros t w H; [reflexivity|].
  rewrite sum_generate_round. cbv zeta.
  pose proof (H 0%nat) as H0.
  change (sum_round_accepts t w 0)
    with ((0 <=? t - (drawn w 0 0 255 + drawn w 1 0 255 + drawn w 2 0 255))
          && (t - (drawn w 0 0 255 + drawn w 1 0 255 + drawn w 2 0 255)
              <=? 255)) in H0.
  rewrite H0. apply IH. intros k. rewrite sum_round_accepts_advance. apply H.
Qed.

(** Only targets in the valid range can ever pass the test. *)
Lemma round_accepts_valid s t w k :
  round_accepts s t w k = true -> valid_target s t.
Proof.
  destruct s; cbn [round_accepts valid_target].
  - unfold sum_round_accepts. intros H.
    apply andb_true_iff in H as [Hlo Hhi]. apply Z.leb_le in Hlo, Hhi.
    pose proof (drawn_range w (3 * k) 0 255).
    pose proof (drawn_range w (3 * k + 1) 0 255).
    pose proof (drawn_range w (3 * k + 2) 0 255). lia.
  - unfold count_round_accepts. intros H. apply Z.eqb_eq in H.
    pose proof (drawn_range w k 0 (2 ^ 32 - 1)) as Hr.
    rewrite (count_bin_popcount 32) in H by lia.
    pose proof (popcount_range 32 (drawn w k 0 (2 ^ 32 - 1))). lia.
Qed.




End Termination.




(** * The pair finder *)

Section Finder.

Import IPPairFinder.

Variable ext : IIPPropertyExtractor.

Lemma call_generate_eq fuel prop w :
  call_generate ext fuel prop w =
  match generate_candidate ext fuel prop (recorded w (EvGenCall prop)) with
  | (Some (Ok c), w1) => (Some (Ok c), recorded w1 (EvGenRet c))
  | (Some (Raise e), w1) => (Some (Raise e), w1)
  | (None, w1) => (None, w1)
  end.
Proof.
  unfold call_generate, bind, log_event, ret, recorded.
  destruct (generate_candidate ext fuel prop _) as [[[c|e]|] w1]; reflexivity.
Qed.

Lemma attempts_loop_S fuel ip prop n pairs w :
  attempts_loop ext fuel ip prop (S n) pairs w =
  match call_generate ext fuel prop w with
  | (Some (Ok c), w1) =>
      if String.eqb c ip then attempts_loop ext fuel ip prop n pairs w1
      else attempts_loop ext fuel ip prop n
             (if probe_answer w1 c then pairs ++ [make_row ip prop c]
              else pairs)
             (probed_world w1 c)
  | (Some (Raise e), w1) => (Some (Raise e), w1)
  | (None, w1) => (None, w1)
  end.
Proof.
  cbn [attempts_loop]. unfold bind at 1.
  destruct (call_generate ext fuel prop w) as [[[c|e]|] w1];
    [|reflexivity|reflexivity].
  destruct (String.eqb c ip); [reflexivity|].
  unfold bind, is_available, probed_world, probe_answer.
  destruct (ping_tape w1 (ping_pos w1) c); reflexivity.
Qed.

Lemma process_seed_eq attempts fuel ip pairs w :
  process_seed ext attempts fuel ip pairs w =
  if probe_answer w ip then
    match extract_property ext ip with
    | Ok prop =>
        attempts_loop ext fuel ip prop (Z.to_nat attempts) pairs
          (probed_world w ip)
    | Raise e => (Some (Raise e), probed_world w ip)
    end
  else (Some (Ok pairs), probed_world w ip).
Proof.
  unfold process_seed, bind, is_available, probed_world, probe_answer, lift.
  destruct (ping_tape w (ping_pos w) ip); [|reflexivity].
  destruct (extract_property ext ip); reflexivity.
Qed.

Hypothesis ext_lawful : lawful ext.

Lemma attempts_loop_facts fuel ip prop n : forall pairs w r w',
    attempts_loop ext fuel ip prop n pairs w = (r, w') ->
    loop_facts ext ip prop n pairs w r w'.
Proof.
  destruct ext_lawful as [Hframe Hround].
  induction n as [|n IH]; intros pairs w r w' H.
  - injection H as <- <-. split; [reflexivity|]. split; [reflexivity|].
    exists []. split; [now rewrite app_nil_r|]. split; [cbn; lia|].
    split; [constructor|]. intros rows [= <-].
    split; [reflexivity|]. split; [cbn; now rewrite app_nil_r|].
    split; [reflexivity|constructor].
  - rewrite attempts_loop_S, call_generate_eq in H.
    destruct (generate_candidate ext fuel prop (recorded w (EvGenCall prop)))
      as [[[c|e]|] w1] eqn:G;
      pose proof (Hframe _ _ _ _ _ G) as (Hrt & Hpt & Hpp & Htr);
      cbn [recorded rand_tape ping_tape ping_pos trace] in Hrt, Hpt, Hpp, Htr.
    + (* the generator returned [c] *)
      pose proof (Hround _ _ _ _ _ G) as Hc.
      destruct (String.eqb c ip) eqn:Heq.
      * apply IH in H as (Hrt' & Hpt' & evs & Htr' & Hcalls & Hpr & Hfin).
        cbn [recorded rand_tape ping_tape ping_pos trace] in Hrt', Hpt', Htr', Hpr.
        split; [congruence|]. split; [congruence|].
        exists (EvGenCall prop :: EvGenRet c :: evs).
        split; [rewrite Htr', Htr, <- !app_assoc; reflexivity|].
        split; [cbn; lia|].
        split; [cbn [probes]; now rewrite Hpt in Hpr|].
        intros rows Hr. destruct (Hfin rows Hr) as (Hn & Hrows & Hpb & Hall).
        cbn [gen_calls returned probes filter]. unfold differs at 1.
        rewrite Heq. cbn [negb].
        split; [congruence|]. split; [assumption|]. split; [assumption|].
        now constructor.
      * apply IH in H as (Hrt' & Hpt' & evs & Htr' & Hcalls & Hpr & Hfin).
        cbn [probed_world recorded rand_tape ping_tape ping_pos trace]
          in Hrt', Hpt', Htr', Hpr.
        split; [congruence|]. split; [congruence|].
        exists (EvGenCall prop :: EvGenRet c
                  :: EvProbe c (probe_answer (recorded w1 (EvGenRet c)) c)
                  :: evs).
        split; [rewrite Htr', Htr, <- !app_assoc; reflexivity|].
        split; [cbn; lia|].
        split.
        { cbn [probes]. constructor; [|now rewrite Hpt in Hpr].
          cbn [fst snd]. split.
          - intros ->. now rewrite String.eqb_refl in Heq.
          - exists (ping_pos w1). unfold probe_answer.
            cbn [recorded ping_tape ping_pos]. now rewrite Hpt. }
        intros rows Hr. destruct (Hfin rows Hr) as (Hn & Hrows & Hpb & Hall).
        cbn [gen_calls returned probes filter map fst]. unfold differs at 1.
        rewrite Heq. cbn [negb].
        split; [congruence|]. split.
        { rewrite Hrows. unfold answered. cbn [probes filter snd].
          destruct (probe_answer (recorded w1 (EvGenRet c)) c);
            cbn [map fst]; [rewrite <- app_assoc|]; reflexivity. }
        split; [now rewrite Hpb|]. now constructor.
    + (* the generator raised *)
      injection H as <- <-. split; [congruence|]. split; [congruence|].
      exists [EvGenCall prop]. split; [assumption|]. split; [cbn; lia|].
      split; [constructor|]. discriminate.
    + (* the generator ran out of fuel *)
      injection H as <- <-. split; [congruence|]. split; [congruence|].
      exists [EvGenCall prop]. split; [assumption|]. split; [cbn; lia|].
      split; [constructor|]. discriminate.
Qed.

End Finder.

Section FinderResults.

Import IPPairFinder.

Variable ext : IIPPropertyExtractor.
Hypothesis ext_lawful : lawful ext.

Lemma answered_in evs c :
  In c (answered evs) -> In (c, true) (probes evs).
Proof.
  unfold answered. rewrite in_map_iff. intros ([c' b] & Hc & Hin).
  apply filter_In in Hin as [Hin Hb]. cbn [fst snd] in Hc, Hb. now subst.
Qed.

Lemma probes_in_returned ip evs c b :
  map fst (probes evs) = filter (differs ip) (returned evs) ->
  In (c, b) (probes evs) -> In c (returned evs).
Proof.
  intros Heq Hin. apply (in_map fst) in Hin. rewrite Heq in Hin.
  now apply filter_In in Hin as [Hin _].
Qed.

Lemma process_seed_emitted attempts fuel ip pairs w rows w' :
  Forall (emitted ext) pairs ->
  process_seed ext attempts fuel ip pairs w = (Some (Ok rows), w') ->
  Forall (emitted ext) rows.
Proof.
  intros Hpairs H. rewrite process_seed_eq in H.
  destruct (probe_answer w ip); [|now injection H as <- _].
  destruct (extract_property ext ip) as [prop|e] eqn:Hip; [|discriminate].
  apply (attempts_loop_facts ext ext_lawful) in H
    as (_ & _ & evs & _ & _ & Hpr & Hfin).
  destruct (Hfin rows eq_refl) as (_ & -> & Hpb & Hall).
  apply Forall_app. split; [assumption|].
  apply Forall_forall. intros row Hrow.
  apply in_map_iff in Hrow as (c & <- & Hc). apply answered_in in Hc.
  exists ip, prop, c. split; [reflexivity|]. split; [assumption|].
  rewrite Forall_forall in Hpr, Hall. split.
  - apply Hall. eapply probes_in_returned; eassumption.
  - exact (proj1 (Hpr _ Hc)).
Qed.

Lemma seeds_loop_emitted attempts fuel ips : forall pairs w rows w',
    Forall (emitted ext) pairs ->
    seeds_loop ext attempts fuel ips pairs w = (Some (Ok rows), w') ->
    Forall (emitted ext) rows.
Proof.
  induction ips as [|ip rest IH]; intros pairs w rows w' Hpairs H.
  - now injection H as <- _.
  - cbn [seeds_loop] in H. unfold bind in H.
    destruct (process_seed ext attempts fuel ip pairs w)
      as [[[pairs1|e]|] w1] eqn:Hstep; try discriminate.
    eapply IH; [|exact H].
    eapply process_seed_emitted; eassumption.
Qed.

Lemma emitted_matched row : emitted ext row -> matched_pair ext row.
Proof.
  intros (ip & prop & c & -> & Hip & Hc & Hne).
  exists prop. cbn [make_row address1 address2 property]. auto.
Qed.

Lemma emitted_marked row :
  emitted ext row ->
  status1 row = available_mark /\ status2 row = available_mark.
Proof. intros (ip & prop & c & -> & _). split; reflexivity. Qed.

(** Calls of the generator made for one seed. *)
Lemma process_seed_budget attempts fuel ip pairs w r w' :
  process_seed ext attempts fuel ip pairs w = (r, w') ->
  exists evs,
    trace w' = trace w ++ EvProbe ip (probe_answer w ip) :: evs
    /\ (gen_calls evs <= Z.to_nat attempts)%nat
    /\ (forall rows, r = Some (Ok rows) ->
        rows = pairs ++ map (make_row ip
                               (match extract_property ext ip with
                                | Ok prop => prop
                                | Raise _ => 0
                                end)) (answered evs))
    /\ (forall rows, r = Some (Ok rows) -> probe_answer w ip = true ->
    gen_calls evs = Z.to_nat attempts
    /\ map fst (probes evs) = filter (differs ip) (returned evs))
/\ (probe_answer w ip = false -> evs = []).
Proof.
intros H. rewrite process_seed_eq in H.
  destruct (probe_answer w ip) eqn:Hup.
  - destruct (extract_property ext ip) as [prop|e] eqn:Hip.
    + apply (attempts_loop_facts ext ext_lawful) in H
        as (_ & _ & evs & Htr & Hcalls & _ & Hfin).
      cbn [probed_world trace] in Htr. rewrite Hup, <- app_assoc in Htr.
      exists evs. split; [exact Htr|]. split; [assumption|].
    split; [|split; [|discriminate]].
    * intros rows Hr. now destruct (Hfin rows Hr) as (_ & -> & _).
    * intros rows Hr _. destruct (Hfin rows Hr) as (Hn & _ & Hpb & _).
      now split.
  + injection H as <- <-. exists []. cbn [probed_world trace].
    rewrite Hup. split; [reflexivity|]. split; [cbn; lia|].
    repeat split; discriminate.
- injection H as <- <-. exists []. cbn [probed_world trace].
  rewrite Hup. split; [reflexivity|]. split; [cbn; lia|].
  split; [|split; [discriminate|reflexivity]].
  intros rows [= <-]. cbn. now rewrite app_nil_r.
Qed.

End FinderResults.

Section Strategies.

Lemma extractor_lawful s : lawful (extractor_of s).
Proof.
  split.
  - intros fuel t w r w' H. now apply generate_frame in H.
  - intros fuel t w c w'. apply generate_round_trip.
Qed.

Lemma append_inj_l p : forall s s' : string,
    (p ++ s)%string = (p ++ s')%string -> s = s'.
Proof.
  induction p as [|c r IH]; cbn [append]; intros s s' H; [assumption|].
  injection H as H. now apply IH.
Qed.

Lemma to_int_proper z : Z.to_int z <> Decimal.Pos Decimal.Nil
                        /\ Z.to_int z <> Decimal.Neg Decimal.Nil.
Proof.
  destruct z as [|p|p]; cbn; split; try discriminate;
    intros [= H]; now apply DecimalPos.Unsigned.to_uint_nonnil in H.
Qed.

Lemma str_inj v v' : PyStr.str v = PyStr.str v' -> v = v'.
Proof.
  unfold PyStr.str. intros H.
  apply (f_equal NilZero.int_of_string) in H.
  destruct (to_int_proper v) as [Hp Hn], (to_int_proper v') as [Hp' Hn'].
  rewrite !NilZero.isi in H by assumption. injection H as H.
  apply (f_equal Z.of_int) in H. now rewrite !DecimalZ.of_to in H.
Qed.

(** The label of a row determines the property value it was made from. *)
Lemma property_label_inj v v' :
  property_label v = property_label v' -> v = v'.
Proof.
  unfold property_label. intros H. apply append_inj_l in H.
  now apply str_inj.
Qed.

End Strategies.

Section FinderRuns.

Import IPPairFinder.

Lemma find_pairs_single attempts fuel ip ext w :
  find_pairs attempts fuel [ip] ext w =
  process_seed ext attempts fuel ip [] w.
Proof.
  unfold find_pairs. cbn [seeds_loop]. unfold bind, ret.
  destruct (process_seed ext attempts fuel ip [] w) as [[[rows|e]|] w1];
    reflexivity.
Qed.

Lemma differs_true ip c : differs ip c = true <-> c <> ip.
Proof.
  unfold differs. rewrite negb_true_iff. split.
  - intros H ->. now rewrite String.eqb_refl in H.
  - intros H. destruct (String.eqb c ip) eqn:E; [|reflexivity].
    apply String.eqb_eq in E. contradiction.
Qed.

Lemma all_probes_answered w ip evs :
  (forall k a, ping_tape w k a = true) ->
  Forall (fun p => fst p <> ip /\ exists k, snd p = ping_tape w k (fst p))
         (probes evs) ->
  answered evs = map fst (probes evs).
Proof.
  intros Hup. unfold answered. induction (probes evs) as [|[c b] l IH];
    intros H; [reflexivity|].
  inversion H as [|? ? [_ [k Hk]] Hl]; subst. cbn [fst snd] in Hk.
  rewrite Hup in Hk. subst b. cbn [filter snd map fst]. now rewrite IH.
Qed.

Lemma seeds_loop_unreachable ext attempts fuel ips : forall pairs w,
    (forall k a, ping_tape w k a = false) ->
    exists w', seeds_loop ext attempts fuel ips pairs w = (Some (Ok pairs), w').
Proof.
  induction ips as [|ip rest IH]; intros pairs w Hdown.
  - exists w. reflexivity.
  - cbn [seeds_loop]. unfold bind. rewrite process_seed_eq.
    unfold probe_answer. rewrite Hdown. apply IH. exact Hdown.
Qed.

Lemma gen_calls_app evs1 evs2 :
  gen_calls (evs1 ++ evs2) = (gen_calls evs1 + gen_calls evs2)%nat.
Proof.
  induction evs1 as [|e evs1 IH]; [reflexivity|].
  destruct e; cbn [app gen_calls]; rewrite IH; reflexivity.
Qed.

(** Over a whole run the generator is called at most [attempts] times per
    seed of the list. *)
Lemma seeds_loop_total_budget s attempts fuel ips : forall pairs w r w',
    seeds_loop (extractor_of s) attempts fuel ips pairs w = (r, w') ->
    exists evs,
      trace w' = trace w ++ evs
      /\ (gen_calls evs <= Z.to_nat attempts * List.length ips)%nat.
Proof.
  induction ips as [|ip rest IH]; intros pairs w r w' H.
  - injection H as _ <-. exists []. rewrite app_nil_r. split; [reflexivity|].
    cbn. lia.
  - cbn [seeds_loop] in H. unfold bind in H.
    destruct (process_seed (extractor_of s) attempts fuel ip pairs w)
      as [r1 w1] eqn:Hstep.
    destruct (process_seed_budget _ (extractor_lawful s) _ _ _ _ _ _ _ Hstep)
      as (evs1 & Htr1 & Hc1 & _).
    assert (Hdone : forall evs2, trace w' = trace w1 ++ evs2 ->
              (gen_calls evs2 <= Z.to_nat attempts * List.length rest)%nat ->
              exists evs, trace w' = trace w ++ evs
                /\ (gen_calls evs
                    <= Z.to_nat attempts * List.length (ip :: rest))%nat).
    { intros evs2 Htr2 Hc2.
      exists ((EvProbe ip (probe_answer w ip) :: evs1) ++ evs2).
      split; [now rewrite Htr2, Htr1, <- app_assoc|].
      rewrite gen_calls_app. cbn [gen_calls List.length]. lia. }
    destruct r1 as [[pairs1|e]|].
    + apply IH in H as (evs2 & Htr2 & Hc2). eauto.
    + injection H as _ <-. apply (Hdone []); [now rewrite app_nil_r|cbn; lia].
    + injection H as _ <-. apply (Hdone []); [now rewrite app_nil_r|cbn; lia].
Qed.

(** A finished run, seed by seed. *)
Lemma seeds_loop_segments s attempts fuel ips : forall pairs w rows w',
    seeds_loop (extractor_of s) attempts fuel ips pairs w
    = (Some (Ok rows), w') ->
    exists segs,
      Forall2 (seed_segment attempts) ips segs
      /\ trace w' = trace w ++ List.concat (map fst segs)
      /\ rows = pairs ++ List.concat (map snd segs).
Proof.
  induction ips as [|ip rest IH]; intros pairs w rows w' H.
  - injection H as <- <-. exists []. cbn. rewrite !app_nil_r.
    repeat split. constructor.
  - cbn [seeds_loop] in H. unfold bind in H.
    destruct (process_seed (extractor_of s) attempts fuel ip pairs w)
      as [[[pairs1|e]|] w1] eqn:Hstep; try discriminate.
    destruct (process_seed_budget _ (extractor_lawful s) _ _ _ _ _ _ _ Hstep)
      as (evs & Htr & Hcalls & Hrows & Hdone & Hdown).
    specialize (Hrows pairs1 eq_refl). specialize (Hdone pairs1 eq_refl).
    apply IH in H as (segs & Hsegs & Htr' & Hrows').
    set (prop := match extract_property (extractor_of s) ip with
                 | Ok prop => prop
                 | Raise _ => 0
                 end) in Hrows.
    exists ((EvProbe ip (probe_answer w ip) :: evs,
             map (make_row ip prop) (answered evs)) :: segs).
    split; [|split].
    + constructor; [|exact Hsegs].
      exists (probe_answer w ip), evs, prop. cbn [fst snd].
      split; [reflexivity|]. split; [exact Hcalls|].
      destruct (probe_answer w ip).
      * destruct (Hdone eq_refl) as [Hn Hpb]. auto.
      * rewrite (Hdown eq_refl). auto.
    + cbn [map fst List.concat]. now rewrite Htr', Htr, <- app_assoc.
    + cbn [map snd List.concat]. now rewrite Hrows', Hrows, <- app_assoc.
Qed.

End FinderRuns.

(** C1: in every row of the list returned by [find_pairs], the seed and
    the candidate have the same extracted property under the strategy used,
    the row records that value (as the label [property_label v], which
    determines [v]), and the candidate is not the seed. *)
Theorem find_pairs_rows_matched (s : strategy) (attempts : Z) (fuel : nat)
        (ips : list string) (w w' : World) (rows : list PairRow) :
  IPPairFinder.find_pairs attempts fuel ips (extractor_of s) w
  = (Some (Ok rows), w') ->
  Forall (matched_pair (extractor_of s)) rows.
Proof.
  intros H. eapply Forall_impl; [apply emitted_matched|].
  eapply (seeds_loop_emitted _ (extractor_lawful s)); [|exact H]. constructor.
Qed.

Lemma find_pairs_rows_matched_witness :
  Forall (matched_pair (extractor_of OctetSum))
         [make_row "10.20.30.40" 100 "10.10.10.70";
          make_row "10.20.30.40" 100 "20.20.20.40"].
Proof.
  refine (find_pairs_rows_matched OctetSum 2 1 ["10.20.30.40"%string]
            (world_of_draws [10; 10; 10; 20; 20; 20])
            (snd (IPPairFinder.find_pairs 2 1 ["10.20.30.40"%string]
                    (extractor_of OctetSum)
                    (world_of_draws [10; 10; 10; 20; 20; 20]))) _ _).
  vm_compute. reflexivity.
Defined.

(** C3, as the code has it: for a single seed, when every probe is
    answered and [find_pairs] returns, the list holds exactly one row for
    each generated candidate that differs from the seed, in order; each row
    carries the seed's own property and none has the seed as candidate.  So
    at least one pair is returned exactly when some generated candidate
    differs from the seed. *)
Theorem single_seed_all_reachable (s : strategy) (attempts : Z) (fuel : nat)
        (ip : string) (w w' : World) (rows : list PairRow) :
  (forall k a, ping_tape w k a = true) ->
  IPPairFinder.find_pairs attempts fuel [ip] (extractor_of s) w
  = (Some (Ok rows), w') ->
  exists prop evs,
    extract_property (extractor_of s) ip = Ok prop
    /\ trace w' = trace w ++ EvProbe ip true :: evs
    /\ rows = map (make_row ip prop) (filter (differs ip) (returned evs))
    /\ Forall (fun row => property row = property_label prop
                          /\ address2 row <> ip) rows
    /\ (rows <> [] <-> exists c, In c (returned evs) /\ c <> ip).
Proof.
  intros Hup H. rewrite find_pairs_single, process_seed_eq in H.
  unfold probe_answer in H. rewrite Hup in H.
  destruct (extract_property (extractor_of s) ip) as [prop|e] eqn:Hip;
    [|discriminate].
  apply (attempts_loop_facts _ (extractor_lawful s)) in H
    as (_ & _ & evs & Htr & _ & Hpr & Hfin).
  destruct (Hfin rows eq_refl) as (_ & Hrows & Hpb & _).
  cbn [probed_world trace ping_tape] in Htr, Hpr.
  unfold probe_answer in Htr. rewrite Hup, <- app_assoc in Htr.
  rewrite (all_probes_answered w ip evs Hup Hpr), Hpb in Hrows.
  cbn [app] in Hrows. exists prop, evs.
  split; [reflexivity|]. split; [exact Htr|]. split; [exact Hrows|]. split.
  - subst rows. apply Forall_forall. intros row Hrow.
    apply in_map_iff in Hrow as (c & <- & Hc).
    apply filter_In in Hc as [_ Hc]. apply differs_true in Hc.
    split; [reflexivity|exact Hc].
  - subst rows. split.
    + intros Hne. destruct (filter (differs ip) (returned evs)) as [|c l] eqn:Hf;
        [now elim Hne|].
      assert (Hin : In c (filter (differs ip) (returned evs)))
        by (rewrite Hf; now left).
      apply filter_In in Hin as [Hin Hc]. apply differs_true in Hc. eauto.
    + intros (c & Hin & Hc) Hnil. apply differs_true in Hc.
      assert (Hf : In c (filter (differs ip) (returned evs)))
        by (apply filter_In; auto).
      destruct (filter (differs ip) (returned evs)); [contradiction|discriminate].
Qed.

Lemma single_seed_all_reachable_witness :
  exists prop evs,
    extract_property (extractor_of OctetSum) "10.20.30.40" = Ok prop
    /\ trace (snd (IPPairFinder.find_pairs 2 1 ["10.20.30.40"%string]
                     (extractor_of OctetSum)
                     (world_of_draws [10; 20; 30; 20; 20; 20])))
       = [] ++ EvProbe "10.20.30.40" true :: evs
    /\ [make_row "10.20.30.40" 100 "20.20.20.40"]
       = map (make_row "10.20.30.40" prop)
             (filter (differs "10.20.30.40") (returned evs))
    /\ Forall (fun row => property row = property_label prop
                          /\ address2 row <> "10.20.30.40"%string)
              [make_row "10.20.30.40" 100 "20.20.20.40"]
    /\ ([make_row "10.20.30.40" 100 "20.20.20.40"] <> []
        <-> exists c, In c (returned evs) /\ c <> "10.20.30.40"%string).
Proof.
  refine (single_seed_all_reachable OctetSum 2 1 "10.20.30.40"
            (world_of_draws [10; 20; 30; 20; 20; 20]) _ _ _ _).
  - reflexivity.
  - vm_compute. reflexivity.
Defined.

(** C3 as stated fails: the seed "0.0.0.0" is reachable and so is every
    candidate, yet the only address with octet sum 0 is the seed itself, so
    every attempt is discarded and [find_pairs] returns no pair. *)
Lemma zero_seed_yields_no_pair :
  (forall k a, ping_tape (constant_world 0 true) k a = true)
  /\ fst (IPPairFinder.find_pairs 10 1 ["0.0.0.0"%string]
            (extractor_of OctetSum) (constant_world 0 true))
     = Some (Ok []).
Proof. split; [reflexivity|]. vm_compute. reflexivity. Qed.

(** C4: in a run of [find_pairs] the trace records at most [attempts]
    calls of [generate_candidate] per seed.  When the run finishes, the
    trace splits into one part per seed, in order: the probe of the seed,
    then at most [attempts] calls of the generator (exactly [attempts] for
    a reachable seed: a candidate equal to the seed is generated, hence
    counted, but not probed), and the seed contributes one row per probed
    candidate that answered, so none when no candidate answers. *)
Theorem attempt_budget_respected (s : strategy) (attempts : Z) (fuel : nat)
        (ips : list string) (w w' : World)
        (r : option (result (list PairRow))) :
  IPPairFinder.find_pairs attempts fuel ips (extractor_of s) w = (r, w') ->
  (exists evs,
      trace w' = trace w ++ evs
      /\ (gen_calls evs <= Z.to_nat attempts * List.length ips)%nat)
  /\ (forall rows, r = Some (Ok rows) ->
      exists segs,
        Forall2 (seed_segment attempts) ips segs
        /\ trace w' = trace w ++ List.concat (map fst segs)
        /\ rows = List.concat (map snd segs)).
Proof.
  intros H. split.
  - exact (seeds_loop_total_budget s attempts fuel ips [] w r w' H).
  - intros rows ->.
    exact (seeds_loop_segments s attempts fuel ips [] w rows w' H).
Qed.

Lemma attempt_budget_respected_witness :
  (exists evs,
      trace (snd (IPPairFinder.find_pairs 3 1 ["10.20.30.40"%string]
                    (extractor_of OctetSum) lonely_seed_world))
      = [] ++ evs
      /\ (gen_calls evs <= 3 * 1)%nat)
  /\ (forall rows, Some (Ok []) = Some (Ok rows) ->
      exists segs,
        Forall2 (seed_segment 3) ["10.20.30.40"%string] segs
        /\ trace (snd (IPPairFinder.find_pairs 3 1 ["10.20.30.40"%string]
                         (extractor_of OctetSum) lonely_seed_world))
           = [] ++ List.concat (map fst segs)
        /\ rows = List.concat (map snd segs)).
Proof.
  refine (attempt_budget_respected OctetSum 3 1 ["10.20.30.40"%string]
            lonely_seed_world _ _ _).
  vm_compute. reflexivity.
Defined.

(** C5: when no probe is answered, and also when the seed list is empty,
    [find_pairs] returns the empty list. *)
Theorem no_reachable_address_no_pairs (ext : IIPPropertyExtractor)
        (attempts : Z) (fuel : nat) (ips : list string) (w : World) :
  ips = [] \/ (forall k a, ping_tape w k a = false) ->
  exists w',
    IPPairFinder.find_pairs attempts fuel ips ext w = (Some (Ok []), w').
Proof.
  intros [-> | Hdown].
  - exists w. reflexivity.
  - now apply seeds_loop_unreachable.
Qed.

Lemma no_reachable_address_no_pairs_witness :
  exists w',
    IPPairFinder.find_pairs 10 1 ["10.20.30.40"; "8.8.8.8"]%string
      (extractor_of BitPopcount) (constant_world 7 false)
    = (Some (Ok []), w').
Proof.
  refine (no_reachable_address_no_pairs (extractor_of BitPopcount) 10 1
            ["10.20.30.40"; "8.8.8.8"]%string (constant_world 7 false) _).
  right. reflexivity.
Defined.

(** C7, as the code has it: [run] hands the sink the header row
    "IPv4-адрес 1", "Критерий 1", "IPv4-адрес 2", "Критерий 2", "Свойство"
    and the rows [find_pairs] returned, one per matched pair, and in every
    row both status fields are the literal "Доступен". *)
Theorem run_hands_header_and_rows (s : strategy) (attempts : Z) (fuel : nat)
        (ips : list string) (w w' : World) (h : list string)
        (rows : list PairRow) :
  IPApp.run attempts fuel ips (extractor_of s) w = (Some (Ok (h, rows)), w') ->
  h = ["IPv4-адрес 1"; "Критерий 1"; "IPv4-адрес 2"; "Критерий 2";
       "Свойство"]%string
  /\ IPPairFinder.find_pairs attempts fuel ips (extractor_of s) w
     = (Some (Ok rows), w')
  /\ Forall (fun row => status1 row = "Доступен"%string
                        /\ status2 row = "Доступен"%string) rows.
Proof.
  unfold IPApp.run, bind, ret. intros H.
  destruct (IPPairFinder.find_pairs attempts fuel ips (extractor_of s) w)
    as [[[rows1|e]|] w1] eqn:Hfind; try discriminate.
  injection H as <- <- <-. split; [reflexivity|]. split; [reflexivity|].
  eapply Forall_impl; [apply (emitted_marked (extractor_of s))|].
  eapply (seeds_loop_emitted _ (extractor_lawful s)); [|exact Hfind].
  constructor.
Qed.

Lemma run_hands_header_and_rows_witness :
  IPApp.header
  = ["IPv4-адрес 1"; "Критерий 1"; "IPv4-адрес 2"; "Критерий 2";
     "Свойство"]%string
  /\ IPPairFinder.find_pairs 1 1 ["10.20.30.40"%string] (extractor_of OctetSum)
       (world_of_draws [20; 20; 20])
     = (Some (Ok [make_row "10.20.30.40" 100 "20.20.20.40"]),
        snd (IPApp.run 1 1 ["10.20.30.40"%string] (extractor_of OctetSum)
               (world_of_draws [20; 20; 20])))
  /\ Forall (fun row => status1 row = "Доступен"%string
                        /\ status2 row = "Доступен"%string)
            [make_row "10.20.30.40" 100 "20.20.20.40"].
Proof.
  refine (run_hands_header_and_rows OctetSum 1 1 ["10.20.30.40"%string]
            (world_of_draws [20; 20; 20]) _ _ _ _).
  vm_compute. reflexivity.
Defined.

(** C7 as stated fails on the literal texts: the header handed to the sink
    is not the English one, and the status marker is not "reachable". *)
Lemma run_header_is_not_english :
  fst (IPApp.run 1 1 ["10.20.30.40"%string] (extractor_of OctetSum)
         (world_of_draws [20; 20; 20]))
  = Some (Ok (IPApp.header, [make_row "10.20.30.40" 100 "20.20.20.40"]))
  /\ IPApp.header
     <> ["Address1"; "Status1"; "Address2"; "Status2"; "Property"]%string
  /\ status1 (make_row "10.20.30.40" 100 "20.20.20.40") <> "reachable"%string.
Proof. split; [vm_compute; reflexivity|]. split; discriminate. Qed.

(** * Decimal text of integers *)

Section DecimalText.

Import PyStr Spec.









End DecimalText.


(** * Rejected text *)

Section SumErrors.

Import PyStr Spec.

Lemma int_raises f e : int f = Raise e -> e = ValueError.
Proof.
  unfold int. destruct (strip f) as [|c r]; [now intros [= <-]|].
  destruct (Ascii.eqb c "+"); [|destruct (Ascii.eqb c "-")];
    destruct (digits_acc 0 false _); intros [= <-]; reflexivity.
Qed.

Lemma sum_ints_outcome fields : forall acc,
    match sum_ints acc fields with
    | Ok v =>
        exists vs, Forall2 (fun f x => int f = Ok x) fields vs
                   /\ v = acc + fold_right Z.add 0 vs
    | Raise e =>
        e = ValueError
        /\ Exists (fun f => int f = Raise ValueError) fields
    end.
Proof.
  induction fields as [|f rest IH]; intros acc; cbn [sum_ints].
  - exists []. split; [constructor|cbn; lia].
  - destruct (int f) as [x|e] eqn:Hf.
    + specialize (IH (acc + x)). destruct (sum_ints (acc + x) rest) as [v|e].
      * destruct IH as (vs & Hvs & ->). exists (x :: vs).
        split; [now constructor|cbn; lia].
      * destruct IH as [-> Hex]. split; [reflexivity|now right].
    + pose proof (int_raises _ _ Hf) as ->. split; [reflexivity|now left].
Qed.

End SumErrors.


(** X3: a text with an empty field (the empty text, a leading or trailing
    dot, two dots in a row) makes [SumOctetsExtractor.extract_property]
    raise [ValueError]. *)
Theorem sum_extract_empty_field (s : string) :
  In EmptyString (PyStr.split "." s) ->
  SumOctetsExtractor.extract_property s = Raise ValueError.
Proof.
  intros Hin. unfold SumOctetsExtractor.extract_property.
  pose proof (sum_ints_outcome (PyStr.split "." s) 0) as H.
  destruct (PyStr.sum_ints 0 (PyStr.split "." s)) as [v|e].
  - destruct H as (vs & Hvs & _). exfalso.
    induction Hvs as [|f x fs xs Hf _ IH]; [contradiction|].
    destruct Hin as [-> | Hin]; [discriminate Hf|auto].
  - now destruct H as [-> _].
Qed.

Lemma sum_extract_empty_field_witness :
  SumOctetsExtractor.extract_property "10.20..40" = Raise ValueError
  /\ SumOctetsExtractor.extract_property "" = Raise ValueError
  /\ SumOctetsExtractor.extract_property "10.20.30." = Raise ValueError.
Proof.
  split; [|split].
  - apply (sum_extract_empty_field "10.20..40"). cbn. auto.
  - apply (sum_extract_empty_field ""). cbn. auto.
  - apply (sum_extract_empty_field "10.20.30."). cbn. auto.
Defined.

Section AtonBytes.

Import PyStr Spec Socket.








End AtonBytes.


Section AtonRejects.

Import PyStr Spec Socket.


Lemma plain_decimal_octet s v :
  plain_decimal s = Some v -> v <= 255 -> canonical_octet s = Some v.
Proof.
  unfold plain_decimal, canonical_octet. destruct s as [|c r]; [discriminate|].
  destruct (_ && _); [|discriminate]. intros [= <-] Hle.
  apply Z.leb_le in Hle. now rewrite Hle.
Qed.







End AtonRejects.



(** * More on candidate generation *)

Section GeneratedAddresses.

Import PyStr Spec Socket.

Lemma generate_shape s fuel t w cand w' :
  generate_candidate (extractor_of s) fuel t w = (Some (Ok cand), w') ->
  generated_address s t cand.
Proof.
  destruct s; cbn [extractor_of generate_candidate]; intros H.
  - apply sum_generate_spec in H as (a & b & c & d & -> & Ht & Ho).
    exists a, b, c, d. cbn [property_of]. tauto.
  - apply count_generate_spec in H as (a & b & c & d & -> & Ht & Ho).
    exists a, b, c, d. cbn [property_of]. tauto.
Qed.

Lemma count_generate_spins fuel : forall t w,
    (forall k, count_round_accepts t w k = false) ->
    fst (CountOnesExtractor.generate_candidate fuel t w) = None.
Proof.
  induction fuel as [|fuel IH]; intros t w H; [reflexivity|].
  rewrite count_generate_round. cbv zeta.
  pose proof (H 0%nat) as H0.
  change (count_round_accepts t w 0)
    with (count "1" (bin (drawn w 0 0 (2 ^ 32 - 1))) =? t) in H0.
  rewrite H0. apply IH. intros k. rewrite count_round_accepts_advance. apply H.
Qed.

Lemma generate_spins s fuel t w :
  (forall k, round_accepts s t w k = false) ->
  fst (generate_candidate (extractor_of s) fuel t w) = None.
Proof.
  destruct s; cbn [round_accepts extractor_of generate_candidate].
  - apply sum_generate_spins.
  - apply count_generate_spins.
Qed.

Lemma low_bit n : n = 2 * Z.div2 n + (if Z.testbit n 0 then 1 else 0).
Proof.
  rewrite Z.bit0_odd. pose proof (Z.div2_odd n) as H.
  destruct (Z.odd n); cbn [Z.b2z] in H; exact H.
Qed.

Lemma div2_range k n :
  0 <= n < 2 ^ Z.of_nat (S k) -> 0 <= Z.div2 n < 2 ^ Z.of_nat k.
Proof.
  rewrite Nat2Z.inj_succ, Z.pow_succ_r by lia. intros H.
  pose proof (low_bit n). destruct (Z.testbit n 0); lia.
Qed.

(** No bit set: the number is 0. *)
Lemma popcount_none k : forall n,
    0 <= n < 2 ^ Z.of_nat k -> popcount k n = 0 -> n = 0.
Proof.
  induction k as [|k IH]; intros n Hn Hp.
  - change (2 ^ Z.of_nat 0) with 1 in Hn. lia.
  - rewrite popcount_low in Hp.
    pose proof (popcount_range k (Z.div2 n)) as Hr.
    pose proof (low_bit n) as Hl.
    destruct (Z.testbit n 0); [lia|].
    rewrite (IH (Z.div2 n)) in Hl; [lia|now apply div2_range|lia].
Qed.

(** Every bit set: the number is the largest of its width. *)
Lemma popcount_all k : forall n,
    0 <= n < 2 ^ Z.of_nat k -> popcount k n = Z.of_nat k ->
    n = 2 ^ Z.of_nat k - 1.
Proof.
  induction k as [|k IH]; intros n Hn Hp.
  - change (2 ^ Z.of_nat 0) with 1 in *. lia.
  - rewrite popcount_low in Hp.
    pose proof (popcount_range k (Z.div2 n)) as Hr.
    pose proof (low_bit n) as Hl.
    rewrite Nat2Z.inj_succ in Hp.
    destruct (Z.testbit n 0); [|lia].
    rewrite (IH (Z.div2 n)) in Hl; [|now apply div2_range|lia].
    rewrite Nat2Z.inj_succ, Z.pow_succ_r by lia. lia.
Qed.

Lemma address_int_no_bit a b c d :
  0 <= a <= 255 -> 0 <= b <= 255 -> 0 <= c <= 255 -> 0 <= d <= 255 ->
  popcount 32 (address_int a b c d) = 0 -> address_int a b c d = 0.
Proof.
  intros Ha Hb Hc Hd Hp. apply (popcount_none 32); [|exact Hp].
  change (2 ^ Z.of_nat 32) with (2 ^ 32). apply address_int_range; assumption.
Qed.

Lemma address_int_all_bits a b c d :
  0 <= a <= 255 -> 0 <= b <= 255 -> 0 <= c <= 255 -> 0 <= d <= 255 ->
  popcount 32 (address_int a b c d) = 32 ->
  address_int a b c d = 4294967295.
Proof.
  intros Ha Hb Hc Hd Hp.
  change 4294967295 with (2 ^ Z.of_nat 32 - 1).
  apply (popcount_all 32); [|exact Hp].
  change (2 ^ Z.of_nat 32) with (2 ^ 32). apply address_int_range; assumption.
Qed.

Lemma address_int_zero a b c d :
  0 <= a <= 255 -> 0 <= b <= 255 -> 0 <= c <= 255 -> 0 <= d <= 255 ->
  address_int a b c d = 0 -> a = 0 /\ b = 0 /\ c = 0 /\ d = 0.
Proof. intros Ha Hb Hc Hd Hp. unfold address_int in Hp. lia. Qed.

Lemma address_int_full a b c d :
  0 <= a <= 255 -> 0 <= b <= 255 -> 0 <= c <= 255 -> 0 <= d <= 255 ->
  address_int a b c d = 4294967295 ->
  a = 255 /\ b = 255 /\ c = 255 /\ d = 255.
Proof. intros Ha Hb Hc Hd Hp. unfold address_int in Hp. lia. Qed.

Lemma octets_for_zero s a b c d :
  0 <= a <= 255 -> 0 <= b <= 255 -> 0 <= c <= 255 -> 0 <= d <= 255 ->
  property_of s a b c d = 0 -> a = 0 /\ b = 0 /\ c = 0 /\ d = 0.
Proof.
  intros Ha Hb Hc Hd. destruct s; cbn [property_of]; intros Hp; [lia|].
  apply address_int_zero; try assumption.
  now apply address_int_no_bit.
Qed.

Lemma octets_for_max s a b c d :
  0 <= a <= 255 -> 0 <= b <= 255 -> 0 <= c <= 255 -> 0 <= d <= 255 ->
  property_of s a b c d = max_target s ->
  a = 255 /\ b = 255 /\ c = 255 /\ d = 255.
Proof.
  intros Ha Hb Hc Hd. destruct s; cbn [property_of max_target]; intros Hp;
    [lia|].
  apply address_int_full; try assumption.
  now apply address_int_all_bits.
Qed.

Lemma generated_for_zero s cand :
  generated_address s 0 cand -> cand = "0.0.0.0"%string.
Proof.
  intros (a & b & c & d & Hcand & Ha & Hb & Hc & Hd & Hp).
  destruct (octets_for_zero s a b c d Ha Hb Hc Hd Hp) as (-> & -> & -> & ->).
  exact Hcand.
Qed.

Lemma generated_for_max s cand :
  generated_address s (max_target s) cand ->
  cand = "255.255.255.255"%string.
Proof.
  intros (a & b & c & d & Hcand & Ha & Hb & Hc & Hd & Hp).
  destruct (octets_for_max s a b c d Ha Hb Hc Hd Hp) as (-> & -> & -> & ->).
  exact Hcand.
Qed.

End GeneratedAddresses.

(** X6: an address returned by [generate_candidate], for any target and
    either strategy, is a dotted quad in canonical form whose four octets
    lie in [0, 255] and have the target as property; both extractors
    accept it. *)
Theorem generate_candidate_canonical (s : strategy) (fuel : nat) (t : Z)
        (w w' : World) (cand : string) :
  generate_candidate (extractor_of s) fuel t w = (Some (Ok cand), w') ->
  exists a b c d : Z,
    Spec.is_dotted_quad cand a b c d
    /\ property_of s a b c d = t
    /\ SumOctetsExtractor.extract_property cand = Ok (a + b + c + d)
    /\ CountOnesExtractor.extract_property cand
       = Ok (Spec.popcount 32 (Spec.address_int a b c d)).
Proof.
  intros H.
  apply generate_shape in H as (a & b & c & d & -> & Ha & Hb & Hc & Hd & Hp).
  pose proof (dotted_is_dotted_quad a b c d Ha Hb Hc Hd) as Hq.
  exists a, b, c, d. split; [exact Hq|]. split; [exact Hp|]. split.
  - now apply sum_extract_dotted_quad.
  - now apply count_extract_dotted_quad.
Qed.

Lemma generate_candidate_canonical_witness :
  exists a b c d : Z,
    Spec.is_dotted_quad "0.0.0.10" a b c d
    /\ property_of BitPopcount a b c d = 2
    /\ SumOctetsExtractor.extract_property "0.0.0.10" = Ok (a + b + c + d)
    /\ CountOnesExtractor.extract_property "0.0.0.10"
       = Ok (Spec.popcount 32 (Spec.address_int a b c d)).
Proof.
  refine (generate_candidate_canonical BitPopcount 1 2 (constant_world 10 true)
            (advance (constant_world 10 true) 1) "0.0.0.10" _).
  reflexivity.
Defined.

(** X7: [generate_candidate] never raises, whatever the target: the
    number drawn always fits four bytes and the bytes always make an
    address. *)
Theorem generate_candidate_never_raises (s : strategy) (fuel : nat) (t : Z)
        (w : World) (e : exn) :
  fst (generate_candidate (extractor_of s) fuel t w) <> Some (Raise e).
Proof.
  destruct (generate_candidate (extractor_of s) fuel t w) as [r w'] eqn:H.
  apply generate_frame in H as [_ H]. exact (H e).
Qed.

(** X8: for a target outside the valid range of the strategy the loop of
    [generate_candidate] never ends: no amount of fuel makes it return. *)
Theorem generate_candidate_invalid_target (s : strategy) (fuel : nat) (t : Z)
        (w : World) :
  ~ valid_target s t ->
  fst (generate_candidate (extractor_of s) fuel t w) = None.
Proof.
  intros Hinv. apply generate_spins. intros k.
  destruct (round_accepts s t w k) eqn:H; [|reflexivity].
  apply round_accepts_valid in H. contradiction.
Qed.

Lemma generate_candidate_invalid_target_witness :
  fst (generate_candidate (extractor_of OctetSum) 7 1021
         (constant_world 5 true)) = None
  /\ fst (generate_candidate (extractor_of BitPopcount) 7 33
            (constant_world 5 true)) = None.
Proof.
  split.
  - apply (generate_candidate_invalid_target OctetSum). cbn. lia.
  - apply (generate_candidate_invalid_target BitPopcount). cbn. lia.
Defined.

(** X9: at the two ends of the valid range only one address has the
    property: for target 0 [generate_candidate] can only return "0.0.0.0",
    and for the largest target (1020, or 32) only "255.255.255.255". *)
Theorem generate_candidate_extremes (s : strategy) (fuel : nat) (t : Z)
        (w w' : World) (cand : string) :
  t = 0 \/ t = max_target s ->
  generate_candidate (extractor_of s) fuel t w = (Some (Ok cand), w') ->
  cand = if t =? 0 then "0.0.0.0"%string else "255.255.255.255"%string.
Proof.
  intros Ht H. apply generate_shape in H.
  destruct Ht as [-> | ->].
  - now apply generated_for_zero in H.
  - apply generated_for_max in H. now destruct s.
Qed.

Lemma generate_candidate_extremes_witness :
  "255.255.255.255"%string
  = if 32 =? 0 then "0.0.0.0"%string else "255.255.255.255"%string.
Proof.
  refine (generate_candidate_extremes BitPopcount 1 32
            (constant_world 4294967295 true)
            (advance (constant_world 4294967295 true) 1)
            "255.255.255.255" _ _).
  - right. reflexivity.
  - vm_compute. reflexivity.
Defined.

(** X19: the packing [generate_candidate] uses and the unpacking
    [extract_property] uses are inverse: for every 32-bit number [n],
    [inet_ntoa(n.to_bytes(4, 'big'))] is an address on which
    [CountOnesExtractor.extract_property] returns the number of bits set
    in [n]. *)
Theorem count_extract_of_packed (n : Z) :
  0 <= n < 2 ^ 32 ->
  exists cand,
    result_bind (Socket.to_bytes n 4) Socket.inet_ntoa = Ok cand
    /\ CountOnesExtractor.extract_property cand = Ok (Spec.popcount 32 n).
Proof.
  intros Hn.
  destruct (be_bytes_quad n Hn) as (a & b & c & d & Hb & Ha & Hb' & Hc & Hd & Hv).
  exists (Socket.dotted a b c d). split.
  - unfold Socket.to_bytes. change (256 ^ Z.of_nat 4) with (2 ^ 32).
    destruct (Z.ltb_spec n 0); [lia|].
    destruct (Z.leb_spec (2 ^ 32) n); [lia|].
    cbn [orb result_bind]. rewrite Hb. reflexivity.
  - rewrite <- Hv. apply count_extract_dotted_quad.
    now apply dotted_is_dotted_quad.
Qed.

Lemma count_extract_of_packed_witness :
  exists cand,
    result_bind (Socket.to_bytes 3232235783 4) Socket.inet_ntoa = Ok cand
    /\ CountOnesExtractor.extract_property cand
       = Ok (Spec.popcount 32 3232235783).
Proof. apply (count_extract_of_packed 3232235783). lia. Defined.

(** * More on the pair finder *)

Section GeneratedRows.

Import IPPairFinder.

Variable s : strategy.

Lemma attempts_loop_generated fuel ip prop n : forall pairs w rows w',
    extract_property (extractor_of s) ip = Ok prop ->
    Forall (generated_row s) pairs ->
    attempts_loop (extractor_of s) fuel ip prop n pairs w
    = (Some (Ok rows), w') ->
    Forall (generated_row s) rows.
Proof.
  induction n as [|n IH]; intros pairs w rows w' Hip Hpairs H.
  - now injection H as <- _.
  - rewrite attempts_loop_S, call_generate_eq in H.
    destruct (generate_candidate (extractor_of s) fuel prop
                (recorded w (EvGenCall prop))) as [[[c|e]|] w1] eqn:G;
      try discriminate.
    apply generate_shape in G.
    destruct (String.eqb c ip) eqn:Heq; [now apply IH in H|].
    apply IH in H; [exact H|exact Hip|].
    destruct (probe_answer _ c); [|exact Hpairs].
    apply Forall_app. split; [exact Hpairs|]. constructor; [|constructor].
    exists prop. cbn [make_row address1 address2].
    split; [exact Hip|]. split; [exact G|].
    intros ->. now rewrite String.eqb_refl in Heq.
Qed.

Lemma seeds_loop_generated attempts fuel ips : forall pairs w rows w',
    Forall (generated_row s) pairs ->
    seeds_loop (extractor_of s) attempts fuel ips pairs w
    = (Some (Ok rows), w') ->
    Forall (generated_row s) rows.
Proof.
  induction ips as [|ip rest IH]; intros pairs w rows w' Hpairs H.
  - now injection H as <- _.
  - cbn [seeds_loop] in H. unfold bind in H.
    destruct (process_seed (extractor_of s) attempts fuel ip pairs w)
      as [[[pairs1|e]|] w1] eqn:Hstep; try discriminate.
    apply IH in H; [exact H|].
    rewrite process_seed_eq in Hstep.
    destruct (probe_answer w ip); [|now injection Hstep as <- _].
    destruct (extract_property (extractor_of s) ip) as [prop|e] eqn:Hip;
      [|discriminate].
    eapply attempts_loop_generated; eassumption.
Qed.

Lemma extract_zero_seed :
  extract_property (extractor_of s) "0.0.0.0" = Ok 0.
Proof. destruct s; reflexivity. Qed.

Lemma extract_full_seed :
  extract_property (extractor_of s) "255.255.255.255" = Ok (max_target s).
Proof. destruct s; reflexivity. Qed.

Lemma generated_row_seed row :
  generated_row s row ->
  address1 row <> "0.0.0.0"%string
  /\ address1 row <> "255.255.255.255"%string.
Proof.
  intros (prop & Hip & Hgen & Hne). split; intros Hseed; rewrite Hseed in *.
  - rewrite extract_zero_seed in Hip. injection Hip as <-.
    now apply generated_for_zero in Hgen.
  - rewrite extract_full_seed in Hip. injection Hip as <-.
    now apply generated_for_max in Hgen.
Qed.

End GeneratedRows.

(** X10: in every row of a list returned by [find_pairs] the candidate is
    a dotted quad in canonical form with octets in [0, 255], also when the
    seed is not, and the property of the seed is the property of these
    octets. *)
Theorem find_pairs_candidates_canonical (s : strategy) (attempts : Z)
        (fuel : nat) (ips : list string) (w w' : World)
        (rows : list PairRow) :
  IPPairFinder.find_pairs attempts fuel ips (extractor_of s) w
  = (Some (Ok rows), w') ->
  Forall (fun row =>
            exists a b c d : Z,
              Spec.is_dotted_quad (address2 row) a b c d
              /\ extract_property (extractor_of s) (address1 row)
                 = Ok (property_of s a b c d)) rows.
Proof.
  intros H. eapply Forall_impl;
    [|eapply (seeds_loop_generated s); [|exact H]; constructor].
  intros row (prop & Hip & (a & b & c & d & Hc & Ha & Hb & Hcc & Hd & Hp) & _).
  exists a, b, c, d. rewrite Hc, Hp.
  split; [now apply dotted_is_dotted_quad|exact Hip].
Qed.

Lemma find_pairs_candidates_canonical_witness :
  Forall (fun row =>
            exists a b c d : Z,
              Spec.is_dotted_quad (address2 row) a b c d
              /\ extract_property (extractor_of OctetSum) (address1 row)
                 = Ok (property_of OctetSum a b c d))
         [make_row "300.1.1.1" 303 "100.100.100.3"].
Proof.
  refine (find_pairs_candidates_canonical OctetSum 1 1 ["300.1.1.1"%string]
            (world_of_draws [100; 100; 100])
            (snd (IPPairFinder.find_pairs 1 1 ["300.1.1.1"%string]
                    (extractor_of OctetSum) (world_of_draws [100; 100; 100])))
            _ _).
  vm_compute. reflexivity.
Defined.

(** X11: the seeds "0.0.0.0" and "255.255.255.255" never get a pair, under
    either strategy and whatever the network and the random source do:
    the only address with their property is the seed itself, and a
    candidate equal to the seed is discarded. *)
Theorem find_pairs_lonely_seeds (s : strategy) (attempts : Z) (fuel : nat)
        (ips : list string) (w w' : World) (rows : list PairRow) :
  IPPairFinder.find_pairs attempts fuel ips (extractor_of s) w
  = (Some (Ok rows), w') ->
  Forall (fun row => address1 row <> "0.0.0.0"%string
                     /\ address1 row <> "255.255.255.255"%string) rows.
Proof.
  intros H. eapply Forall_impl; [apply (generated_row_seed s)|].
  eapply (seeds_loop_generated s); [|exact H]. constructor.
Qed.

Lemma find_pairs_lonely_seeds_witness :
  Forall (fun row => address1 row <> "0.0.0.0"%string
                     /\ address1 row <> "255.255.255.255"%string)
         [make_row "10.20.30.40" 100 "20.20.20.40"].
Proof.
  refine (find_pairs_lonely_seeds OctetSum 1 1
            ["0.0.0.0"; "10.20.30.40"]%string
            (world_of_draws [0; 0; 0; 20; 20; 20])
            (snd (IPPairFinder.find_pairs 1 1
                    ["0.0.0.0"; "10.20.30.40"]%string
                    (extractor_of OctetSum)
                    (world_of_draws [0; 0; 0; 20; 20; 20]))) _ _).
  vm_compute. reflexivity.
Defined.

Section RowOrder.

Import IPPairFinder.

Variable ext : IIPPropertyExtractor.

Lemma attempts_loop_appends fuel ip prop n : forall pairs w rows w',
    attempts_loop ext fuel ip prop n pairs w = (Some (Ok rows), w') ->
    exists cs, rows = pairs ++ map (make_row ip prop) cs
               /\ (List.length cs <= n)%nat.
Proof.
  induction n as [|n IH]; intros pairs w rows w' H.
  - injection H as <- _. exists []. cbn. now rewrite app_nil_r.
  - rewrite attempts_loop_S in H.
    destruct (call_generate ext fuel prop w) as [[[c|e]|] w1];
      try discriminate.
    destruct (String.eqb c ip).
    + apply IH in H as (cs & -> & Hlen). exists cs. split; [reflexivity|lia].
    + apply IH in H as (cs & -> & Hlen).
      destruct (probe_answer w1 c).
      * exists (c :: cs). rewrite <- app_assoc.
        split; [reflexivity|cbn; lia].
      * exists cs. split; [reflexivity|lia].
Qed.

Lemma seeds_of_rows ip prop cs :
  map address1 (map (make_row ip prop) cs) = repeat ip (List.length cs).
Proof. induction cs as [|c cs IH]; cbn; [reflexivity|now rewrite IH]. Qed.

Lemma process_seed_appends attempts fuel ip pairs w rows w' :
  process_seed ext attempts fuel ip pairs w = (Some (Ok rows), w') ->
  exists k, (k <= Z.to_nat attempts)%nat
            /\ map address1 rows = map address1 pairs ++ repeat ip k.
Proof.
  intros H. rewrite process_seed_eq in H.
  destruct (probe_answer w ip).
  - destruct (extract_property ext ip) as [prop|e]; [|discriminate].
    apply attempts_loop_appends in H as (cs & -> & Hlen).
    exists (List.length cs). split; [exact Hlen|].
    now rewrite map_app, seeds_of_rows.
  - injection H as <- _. exists 0%nat. split; [lia|].
    cbn. now rewrite app_nil_r.
Qed.

Lemma seeds_loop_grouped attempts fuel ips : forall pairs w rows w',
    seeds_loop ext attempts fuel ips pairs w = (Some (Ok rows), w') ->
    exists counts,
      List.length counts = List.length ips
      /\ Forall (fun k => (k <= Z.to_nat attempts)%nat) counts
      /\ map address1 rows = map address1 pairs ++ grouped ips counts.
Proof.
  induction ips as [|ip rest IH]; intros pairs w rows w' H.
  - injection H as <- _. exists []. cbn. rewrite app_nil_r. auto.
  - cbn [seeds_loop] in H. unfold bind in H.
    destruct (process_seed ext attempts fuel ip pairs w)
      as [[[pairs1|e]|] w1] eqn:Hstep; try discriminate.
    apply process_seed_appends in Hstep as (k & Hk & Hseeds).
    apply IH in H as (counts & Hlen & Hall & Hrows).
    exists (k :: counts). cbn [List.length grouped].
    split; [congruence|]. split; [now constructor|].
    now rewrite Hrows, Hseeds, <- app_assoc.
Qed.

Lemma grouped_length n ips : forall counts,
    Forall (fun k => (k <= n)%nat) counts ->
    (List.length (grouped ips counts) <= n * List.length ips)%nat.
Proof.
  induction ips as [|ip rest IH]; intros counts H; cbn [grouped List.length];
    [lia|].
  destruct counts as [|k counts]; [cbn; lia|].
  inversion H as [|? ? Hk Hrest]; subst.
  rewrite length_app, repeat_length. specialize (IH counts Hrest). lia.
Qed.

End RowOrder.

(** X12: the rows returned by [find_pairs] come seed by seed in the order
    of the seed list, each seed with at most [attempts] rows (possibly
    none); so there are at most [attempts] rows per seed in total.  This
    holds for any extractor. *)
Theorem find_pairs_rows_in_seed_order (ext : IIPPropertyExtractor)
        (attempts : Z) (fuel : nat) (ips : list string) (w w' : World)
        (rows : list PairRow) :
  IPPairFinder.find_pairs attempts fuel ips ext w = (Some (Ok rows), w') ->
  exists counts : list nat,
    List.length counts = List.length ips
    /\ Forall (fun k => (k <= Z.to_nat attempts)%nat) counts
    /\ map address1 rows = grouped ips counts
    /\ (List.length rows <= Z.to_nat attempts * List.length ips)%nat.
Proof.
  intros H. apply seeds_loop_grouped in H as (counts & Hlen & Hall & Hrows).
  cbn [map app] in Hrows. exists counts.
  split; [exact Hlen|]. split; [exact Hall|]. split; [exact Hrows|].
  rewrite <- (length_map address1), Hrows. now apply grouped_length.
Qed.

Lemma find_pairs_rows_in_seed_order_witness :
  exists counts : list nat,
    List.length counts = 3%nat
    /\ Forall (fun k => (k <= 2)%nat) counts
    /\ ["10.20.30.40"; "10.20.30.40"; "1.1.1.1"; "1.1.1.1"]%string
       = grouped ["10.20.30.40"; "0.0.0.0"; "1.1.1.1"]%string counts
    /\ (4 <= 2 * 3)%nat.
Proof.
  refine (find_pairs_rows_in_seed_order (extractor_of OctetSum) 2 1
            ["10.20.30.40"; "0.0.0.0"; "1.1.1.1"]%string
            (world_of_draws [20; 20; 20; 30; 30; 30; 0; 0; 0; 0; 0; 0;
                             1; 1; 2; 2; 1; 1])
            (snd (IPPairFinder.find_pairs 2 1
                    ["10.20.30.40"; "0.0.0.0"; "1.1.1.1"]%string
                    (extractor_of OctetSum)
                    (world_of_draws [20; 20; 20; 30; 30; 30; 0; 0; 0; 0; 0; 0;
                                     1; 1; 2; 2; 1; 1])))
            [make_row "10.20.30.40" 100 "20.20.20.40";
             make_row "10.20.30.40" 100 "30.30.30.10";
             make_row "1.1.1.1" 4 "1.1.2.0";
             make_row "1.1.1.1" 4 "2.1.1.0"] _).
  vm_compute. reflexivity.
Defined.

Section Traffic.

Import IPPairFinder.

Variable ext : IIPPropertyExtractor.
Hypothesis ext_lawful : lawful ext.

Lemma probes_app evs1 evs2 : probes (evs1 ++ evs2) = probes evs1 ++ probes evs2.
Proof.
  induction evs1 as [|e evs1 IH]; [reflexivity|].
  destruct e; cbn [app probes]; rewrite IH; reflexivity.
Qed.

Lemma attempts_loop_traffic fuel ip prop n : forall pairs w r w',
    attempts_loop ext fuel ip prop n pairs w = (r, w') ->
    exists evs,
      trace w' = trace w ++ evs
      /\ (gen_calls evs <= n)%nat
      /\ (List.length (probes evs) <= n)%nat.
Proof.
  destruct ext_lawful as [Hframe _].
  induction n as [|n IH]; intros pairs w r w' H.
  - injection H as _ <-. exists []. rewrite app_nil_r. cbn. auto.
  - rewrite attempts_loop_S, call_generate_eq in H.
    destruct (generate_candidate ext fuel prop (recorded w (EvGenCall prop)))
      as [[[c|e]|] w1] eqn:G;
      pose proof (Hframe _ _ _ _ _ G) as (_ & _ & _ & Htr);
      cbn [recorded trace] in Htr.
    + destruct (String.eqb c ip).
      * apply IH in H as (evs & Htr' & Hc & Hp).
        cbn [recorded trace] in Htr'.
        exists (EvGenCall prop :: EvGenRet c :: evs).
        split; [rewrite Htr', Htr, <- !app_assoc; reflexivity|].
        cbn [gen_calls probes]. split; lia.
      * apply IH in H as (evs & Htr' & Hc & Hp).
        cbn [probed_world recorded trace] in Htr'.
        exists (EvGenCall prop :: EvGenRet c
                  :: EvProbe c (probe_answer (recorded w1 (EvGenRet c)) c)
                  :: evs).
        split; [rewrite Htr', Htr, <- !app_assoc; reflexivity|].
        cbn [gen_calls probes List.length]. split; lia.
    + injection H as _ <-. exists [EvGenCall prop].
      split; [exact Htr|]. cbn. split; lia.
    + injection H as _ <-. exists [EvGenCall prop].
      split; [exact Htr|]. cbn. split; lia.
Qed.

Lemma process_seed_traffic attempts fuel ip pairs w r w' :
  process_seed ext attempts fuel ip pairs w = (r, w') ->
  exists evs,
    trace w' = trace w ++ evs
    /\ (gen_calls evs <= Z.to_nat attempts)%nat
    /\ (List.length (probes evs) <= 1 + Z.to_nat attempts)%nat.
Proof.
  intros H. rewrite process_seed_eq in H.
  assert (Hstop : w' = probed_world w ip ->
                  exists evs, trace w' = trace w ++ evs
                    /\ (gen_calls evs <= Z.to_nat attempts)%nat
                    /\ (List.length (probes evs) <= 1 + Z.to_nat attempts)%nat).
  { intros ->. exists [EvProbe ip (probe_answer w ip)].
    split; [reflexivity|]. cbn. split; lia. }
  destruct (probe_answer w ip) eqn:Hup.
  - destruct (extract_property ext ip) as [prop|e].
    + apply attempts_loop_traffic in H as (evs & Htr & Hc & Hp).
      cbn [probed_world trace] in Htr. rewrite <- app_assoc in Htr.
      exists ([EvProbe ip (probe_answer w ip)] ++ evs).
      split; [exact Htr|]. cbn [app gen_calls probes List.length].
      split; lia.
    + injection H as _ <-. now apply Hstop.
  - injection H as _ <-. now apply Hstop.
Qed.

Lemma seeds_loop_traffic attempts fuel ips : forall pairs w r w',
    seeds_loop ext attempts fuel ips pairs w = (r, w') ->
    exists evs,
      trace w' = trace w ++ evs
      /\ (gen_calls evs <= Z.to_nat attempts * List.length ips)%nat
      /\ (List.length (probes evs)
          <= List.length ips * (1 + Z.to_nat attempts))%nat.
Proof.
  induction ips as [|ip rest IH]; intros pairs w r w' H.
  - injection H as _ <-. exists []. rewrite app_nil_r. cbn. split; [auto|lia].
  - cbn [seeds_loop] in H. unfold bind in H.
    destruct (process_seed ext attempts fuel ip pairs w) as [r1 w1] eqn:Hstep.
    apply process_seed_traffic in Hstep as (evs1 & Htr1 & Hc1 & Hp1).
    assert (Hdone : forall evs2, trace w' = trace w1 ++ evs2 ->
              (gen_calls evs2 <= Z.to_nat attempts * List.length rest)%nat ->
              (List.length (probes evs2)
               <= List.length rest * (1 + Z.to_nat attempts))%nat ->
              exists evs, trace w' = trace w ++ evs
                /\ (gen_calls evs
                    <= Z.to_nat attempts * List.length (ip :: rest))%nat
                /\ (List.length (probes evs)
                    <= List.length (ip :: rest) * (1 + Z.to_nat attempts))%nat).
    { intros evs2 Htr2 Hc2 Hp2. exists (evs1 ++ evs2).
      split; [now rewrite Htr2, Htr1, <- app_assoc|].
      rewrite gen_calls_app, probes_app, length_app. cbn [List.length].
      split; lia. }
    destruct r1 as [[pairs1|e]|].
    + apply IH in H as (evs2 & Htr2 & Hc2 & Hp2). eauto.
    + injection H as _ <-.
      apply (Hdone []); [now rewrite app_nil_r|cbn; lia|cbn; lia].
    + injection H as _ <-.
      apply (Hdone []); [now rewrite app_nil_r|cbn; lia|cbn; lia].
Qed.

End Traffic.

(** X13: however a run of [find_pairs] ends, it sends at most one probe
    per seed and one per attempt: at most [len(ips) * (1 + attempts)]
    probes in all. *)
Theorem find_pairs_probe_budget (s : strategy) (attempts : Z) (fuel : nat)
        (ips : list string) (w : World) :
  exists evs,
    trace (snd (IPPairFinder.find_pairs attempts fuel ips (extractor_of s) w))
    = trace w ++ evs
    /\ (List.length (probes evs)
        <= List.length ips * (1 + Z.to_nat attempts))%nat.
Proof.
  destruct (IPPairFinder.find_pairs attempts fuel ips (extractor_of s) w)
    as [r w'] eqn:H.
  apply (seeds_loop_traffic _ (extractor_lawful s)) in H
    as (evs & Htr & _ & Hp).
  exists evs. split; [exact Htr|exact Hp].
Qed.

Section Failures.

Import IPPairFinder.

Variable s : strategy.





End Failures.





(** * The address source and the program *)

Section AddressSource.

Import IPGenerator.

Variable gethostbyname : nat -> string -> result string.

Lemma resolve_loop_spec ds : forall k ips,
    resolve_loop gethostbyname k ds ips
    = (ips ++ resolved gethostbyname k ds, (k + List.length ds)%nat).
Proof.
  induction ds as [|d rest IH]; intros k ips; cbn [resolve_loop resolved].
  - rewrite app_nil_r. cbn. f_equal. lia.
  - destruct (gethostbyname k d) as [ip|e]; rewrite IH; cbn [List.length].
    + rewrite <- app_assoc. f_equal. lia.
    + f_equal. lia.
Qed.

Lemma resolved_length ds : forall k,
    (List.length (resolved gethostbyname k ds) <= List.length ds)%nat.
Proof.
  induction ds as [|d rest IH]; intros k; cbn [resolved List.length];
    [lia|].
  specialize (IH (S k)). destruct (gethostbyname k d); cbn [List.length]; lia.
Qed.

Lemma resolved_in ds : forall k ip,
    In ip (resolved gethostbyname k ds) ->
    exists i d, nth_error ds i = Some d
                /\ gethostbyname (k + i)%nat d = Ok ip.
Proof.
  induction ds as [|d rest IH]; intros k ip Hin; cbn [resolved] in Hin;
    [contradiction|].
  assert (Hrest : In ip (resolved gethostbyname (S k) rest) ->
                  exists i d0, nth_error (d :: rest) i = Some d0
                               /\ gethostbyname (k + i)%nat d0 = Ok ip).
  { intros H. apply IH in H as (i & d0 & Hn & Hg). exists (S i), d0.
    split; [exact Hn|]. now replace (k + S i)%nat with (S k + i)%nat by lia. }
  destruct (gethostbyname k d) as [ip0|e] eqn:Hd; [|auto].
  destruct Hin as [<- | Hin]; [|auto].
  exists 0%nat, d. split; [reflexivity|].
  now replace (k + 0)%nat with k by lia.
Qed.

Lemma generate_ip_addresses_eq k :
  generate_ip_addresses gethostbyname k
  = (resolved gethostbyname k domains, (k + 50)%nat).
Proof.
  unfold generate_ip_addresses. rewrite resolve_loop_spec. reflexivity.
Qed.

End AddressSource.

(** X16: [generate_ip_addresses] never raises and looks up each of the 50
    domains once, in order; it returns, in that order, the addresses of
    the domains whose lookup succeeded and drops the others, so at most 50
    addresses, each one the answer to the lookup of one of the domains. *)
Theorem generate_ip_addresses_resolved
        (gethostbyname : nat -> string -> result string) (k : nat) :
  fst (IPGenerator.generate_ip_addresses gethostbyname k)
  = resolved gethostbyname k IPGenerator.domains
  /\ snd (IPGenerator.generate_ip_addresses gethostbyname k) = (k + 50)%nat
  /\ (List.length (fst (IPGenerator.generate_ip_addresses gethostbyname k))
      <= 50)%nat
  /\ forall ip,
      In ip (fst (IPGenerator.generate_ip_addresses gethostbyname k)) ->
      exists i d, nth_error IPGenerator.domains i = Some d
                  /\ gethostbyname (k + i)%nat d = Ok ip.
Proof.
  rewrite generate_ip_addresses_eq. cbn [fst snd].
  split; [reflexivity|]. split; [reflexivity|]. split.
  - apply (resolved_length gethostbyname IPGenerator.domains k).
  - apply resolved_in.
Qed.

Section Program.

Import IPPairFinder.

Lemma run_eq attempts fuel ips ext w :
  IPApp.run attempts fuel ips ext w =
  match find_pairs attempts fuel ips ext w with
  | (Some (Ok rows), w1) => (Some (Ok (IPApp.header, rows)), w1)
  | (Some (Raise e), w1) => (Some (Raise e), w1)
  | (None, w1) => (None, w1)
  end.
Proof.
  unfold IPApp.run, bind, ret.
  destruct (find_pairs attempts fuel ips ext w) as [[[rows|e]|] w1];
    reflexivity.
Qed.

Lemma run_traffic s attempts fuel ips w r w' :
  IPApp.run attempts fuel ips (extractor_of s) w = (r, w') ->
  exists evs,
    trace w' = trace w ++ evs
    /\ (gen_calls evs <= Z.to_nat attempts * List.length ips)%nat
    /\ (List.length (probes evs)
        <= List.length ips * (1 + Z.to_nat attempts))%nat.
Proof.
  rewrite run_eq. intros H.
  destruct (find_pairs attempts fuel ips (extractor_of s) w)
    as [r1 w1] eqn:Hfind.
  assert (w1 = w') as -> by (destruct r1 as [[rows|e]|]; congruence).
  exact (seeds_loop_traffic _ (extractor_lawful s) _ _ _ _ _ _ _ Hfind).
Qed.

Lemma main_eq gethostbyname fuel w :
  Main.main gethostbyname fuel w =
  match IPApp.run 10 fuel (resolved gethostbyname 0 IPGenerator.domains)
          (extractor_of OctetSum) w with
  | (Some (Ok sink_sum), w1) =>
      match IPApp.run 10 fuel (resolved gethostbyname 50 IPGenerator.domains)
              (extractor_of BitPopcount) w1 with
      | (Some (Ok sink_ones), w2) => (Some (Ok (sink_sum, sink_ones)), w2)
      | (Some (Raise e), w2) => (Some (Raise e), w2)
      | (None, w2) => (None, w2)
      end
  | (Some (Raise e), w1) => (Some (Raise e), w1)
  | (None, w1) => (None, w1)
  end.
Proof.
  unfold Main.main. rewrite !generate_ip_addresses_eq.
  unfold bind, ret, Main.default_attempts. cbn [extractor_of Nat.add].
  destruct (IPApp.run 10 fuel _ SumOctetsExtractor.extractor w)
    as [[[sink_sum|e]|] w1]; reflexivity.
Qed.

Lemma run_results s attempts fuel ips w w' sink :
  IPApp.run attempts fuel ips (extractor_of s) w = (Some (Ok sink), w') ->
  fst sink = IPApp.header
  /\ Forall (matched_pair (extractor_of s)) (snd sink)
  /\ (List.length (snd sink) <= Z.to_nat attempts * List.length ips)%nat.
Proof.
  rewrite run_eq. intros H.
  destruct (find_pairs attempts fuel ips (extractor_of s) w)
    as [[[rows|e]|] w1] eqn:Hfind; try discriminate.
  injection H as <- _. cbn [fst snd]. split; [reflexivity|]. split.
  - eapply Forall_impl; [apply emitted_matched|].
    eapply (seeds_loop_emitted _ (extractor_lawful s)); [|exact Hfind].
    constructor.
  - apply seeds_loop_grouped in Hfind as (counts & _ & Hall & Hrows).
    cbn [map app] in Hrows.
    rewrite <- (length_map address1), Hrows. now apply grouped_length.
Qed.

End Program.

(** X17: however [main] ends, it has sent at most 1100 probes and called
    the candidate generators at most 1000 times: two runs, each over at
    most 50 addresses with 10 attempts per address. *)
Theorem main_traffic (gethostbyname : nat -> string -> result string)
        (fuel : nat) (w : World) :
  exists evs,
    trace (snd (Main.main gethostbyname fuel w)) = trace w ++ evs
    /\ (List.length (probes evs) <= 1100)%nat
    /\ (gen_calls evs <= 1000)%nat.
Proof.
  rewrite main_eq.
  pose proof (resolved_length gethostbyname IPGenerator.domains 0) as Hl1.
  pose proof (resolved_length gethostbyname IPGenerator.domains 50) as Hl2.
  change (List.length IPGenerator.domains) with 50%nat in Hl1, Hl2.
  destruct (IPApp.run 10 fuel (resolved gethostbyname 0 IPGenerator.domains)
              (extractor_of OctetSum) w) as [r1 w1] eqn:H1.
  apply run_traffic in H1 as (evs1 & Htr1 & Hc1 & Hp1).
  change (Z.to_nat 10) with 10%nat in Hc1, Hp1.
  assert (Hstop : exists evs, trace w1 = trace w ++ evs
                    /\ (List.length (probes evs) <= 1100)%nat
                    /\ (gen_calls evs <= 1000)%nat)
    by (exists evs1; split; [exact Htr1|split; lia]).
  destruct r1 as [[sink_sum|e]|]; cbn [snd]; try exact Hstop.
  destruct (IPApp.run 10 fuel (resolved gethostbyname 50 IPGenerator.domains)
              (extractor_of BitPopcount) w1) as [r2 w2] eqn:H2.
  apply run_traffic in H2 as (evs2 & Htr2 & Hc2 & Hp2).
  change (Z.to_nat 10) with 10%nat in Hc2, Hp2.
  assert (Hend : exists evs, trace w2 = trace w ++ evs
                   /\ (List.length (probes evs) <= 1100)%nat
                   /\ (gen_calls evs <= 1000)%nat).
  { exists (evs1 ++ evs2). split; [now rewrite Htr2, Htr1, <- app_assoc|].
    rewrite probes_app, length_app, gen_calls_app. split; lia. }
  destruct r2 as [[sink_ones|e]|]; cbn [snd]; exact Hend.
Qed.

(** X18: when [main] finishes, each of the two writers has received the
    header and at most 500 rows; the rows of the first are matched pairs
    under the octet-sum strategy, those of the second under the bit-count
    strategy. *)
Theorem main_results (gethostbyname : nat -> string -> result string)
        (fuel : nat) (w w' : World)
        (sink_sum sink_ones : list string * list PairRow) :
  Main.main gethostbyname fuel w = (Some (Ok (sink_sum, sink_ones)), w') ->
  fst sink_sum = IPApp.header /\ fst sink_ones = IPApp.header
  /\ Forall (matched_pair (extractor_of OctetSum)) (snd sink_sum)
  /\ Forall (matched_pair (extractor_of BitPopcount)) (snd sink_ones)
  /\ (List.length (snd sink_sum) <= 500)%nat
  /\ (List.length (snd sink_ones) <= 500)%nat.
Proof.
  rewrite main_eq. intros H.
  pose proof (resolved_length gethostbyname IPGenerator.domains 0) as Hl1.
  pose proof (resolved_length gethostbyname IPGenerator.domains 50) as Hl2.
  change (List.length IPGenerator.domains) with 50%nat in Hl1, Hl2.
  destruct (IPApp.run 10 fuel (resolved gethostbyname 0 IPGenerator.domains)
              (extractor_of OctetSum) w) as [[[s1|e]|] w1] eqn:H1;
    try discriminate.
  destruct (IPApp.run 10 fuel (resolved gethostbyname 50 IPGenerator.domains)
              (extractor_of BitPopcount) w1) as [[[s2|e]|] w2] eqn:H2;
    try discriminate.
  assert (s1 = sink_sum /\ s2 = sink_ones) as [-> ->] by (split; congruence).
  apply run_results in H1 as (Hh1 & Hm1 & Hn1).
  apply run_results in H2 as (Hh2 & Hm2 & Hn2).
  change (Z.to_nat 10) with 10%nat in Hn1, Hn2.
  repeat split; try assumption; lia.
Qed.

Lemma main_results_witness :
  IPApp.header = IPApp.header /\ IPApp.header = IPApp.header
  /\ Forall (matched_pair (extractor_of OctetSum))
            (repeat (make_row "10.20.30.40" 100 "20.20.20.40") 10)
  /\ Forall (matched_pair (extractor_of BitPopcount))
            (repeat (make_row "10.20.30.40" 10 "0.0.255.20") 10)
  /\ (10 <= 500)%nat /\ (10 <= 500)%nat.
Proof.
  refine (main_results lookup_google_only 1 (constant_world 65300 true)
            (snd (Main.main lookup_google_only 1 (constant_world 65300 true)))
            (IPApp.header,
             repeat (make_row "10.20.30.40" 100 "20.20.20.40") 10)
            (IPApp.header,
             repeat (make_row "10.20.30.40" 10 "0.0.255.20") 10) _).
  vm_compute. reflexivity.
Defined.
